(** * PyFlow download manager: queue, worker pool and request normalisation

    A shallow embedding of [download_manager.py] (class [DownloadManager])
    and of the [/add-download] handler of [server.py], with the properties
    of the queue and worker-pool scheduler stated over it.

    Conventions.
    - A Python [str] is a [string] (its UTF-8 bytes).
    - [DownloadTask] objects are shared by reference between the pending
      queue, the active-task index, the completed list and the worker that
      processes them.  The model keeps them in an object store ([heap],
      a list indexed by reference) and every container holds references.
    - Coroutines are modelled by a labelled step function: one event is one
      uninterrupted run of a coroutine (or a callback of a download thread)
      between two suspension points. *)

From Stdlib Require Import Ascii String QArith.
From stdpp Require Import gmap strings list sorting.

Local Close Scope Q_scope.

(* ====================================================================== *)
(** ** Python string operations *)
(* ====================================================================== *)

Module PyStr.

(** [c in s] for a one-character [c]. *)
Fixpoint contains (c : ascii) (s : string) : bool :=
  match s with
  | EmptyString => false
  | String a s' => Ascii.eqb a c || contains c s'
  end.

(** [all(p(c) for c in s)]. *)
Fixpoint all_chars (p : ascii -> bool) (s : string) : bool :=
  match s with
  | EmptyString => true
  | String a s' => p a && all_chars p s'
  end.

(** Keep the characters satisfying [p]; [s.replace(c, "")] is
    [keep (fun a => negb (a =? c)) s]. *)
Fixpoint keep (p : ascii -> bool) (s : string) : string :=
  match s with
  | EmptyString => EmptyString
  | String a s' => if p a then String a (keep p s') else keep p s'
  end.

(** [s.replace(c, d)] for one-character [c] and [d]. *)
Fixpoint replace_char (c d : ascii) (s : string) : string :=
  match s with
  | EmptyString => EmptyString
  | String a s' => String (if Ascii.eqb a c then d else a) (replace_char c d s')
  end.

(** [s.lstrip(chars)], the stripped set given as a predicate. *)
Fixpoint lstrip (p : ascii -> bool) (s : string) : string :=
  match s with
  | EmptyString => EmptyString
  | String a s' => if p a then lstrip p s' else s
  end.

(** Cut [s] before its first character satisfying [p]:
    [(s[:i], s[i:])] with [i] the first such position, or [len(s)]. *)
Fixpoint break (p : ascii -> bool) (s : string) : string * string :=
  match s with
  | EmptyString => (EmptyString, EmptyString)
  | String a s' =>
      if p a then (EmptyString, s)
      else let '(l, r) := break p s' in (String a l, r)
  end.

(** [s.split(c, 1)] when [c in s]: the text before and after the first [c]. *)
Definition partition (c : ascii) (s : string) : option (string * string) :=
  match break (fun a => Ascii.eqb a c) s with
  | (l, String _ r) => Some (l, r)
  | (_, EmptyString) => None
  end.

(** [s.split(c)]. *)
Fixpoint split (c : ascii) (s : string) : list string :=
  match s with
  | EmptyString => [EmptyString]
  | String a s' =>
      if Ascii.eqb a c then EmptyString :: split c s'
      else match split c s' with
           | w :: ws => String a w :: ws
           | [] => [String a EmptyString]
           end
  end.

(** [sep.join(l)]. *)
Fixpoint join (sep : string) (l : list string) : string :=
  match l with
  | [] => EmptyString
  | [w] => w
  | w :: ws => w +:+ sep +:+ join sep ws
  end.

(** [s.startswith(p)]. *)
Definition startswith (p s : string) : bool := String.prefix p s.

(** [s[:n]] and [s[n:]]. *)
Fixpoint take (n : nat) (s : string) : string :=
  match n, s with
  | S n', String a s' => String a (take n' s')
  | _, _ => EmptyString
  end.

Fixpoint drop (n : nat) (s : string) : string :=
  match n, s with
  | S n', String _ s' => drop n' s'
  | _, _ => s
  end.

(** Truthiness of a [str] and of an [Optional[str]]. *)
Definition truthy (s : string) : bool :=
  match s with EmptyString => false | _ => true end.

Definition truthy_opt (o : option string) : bool :=
  match o with Some s => truthy s | None => false end.

End PyStr.

(* ====================================================================== *)
(** ** The functions of [urllib.parse] used by the manager *)
(* ====================================================================== *)

(** Modelled on CPython's [urllib/parse.py].  Two checks of [urlsplit] lie
    outside the model and are taken to pass: the NFKC check of a netloc
    with non-ASCII characters, and the validation of the host between a
    matching pair of brackets.  Decoding of percent-escapes works on bytes:
    [unquote] agrees with CPython whenever the decoded escapes are valid
    UTF-8 (CPython substitutes U+FFFD otherwise). *)

Module Url.
Import PyStr.

Definition in_range (lo hi : nat) (c : ascii) : bool :=
  (lo <=? nat_of_ascii c)%nat && (nat_of_ascii c <=? hi)%nat.

Definition is_upper : ascii -> bool := in_range 65 90.
Definition is_lower : ascii -> bool := in_range 97 122.
Definition is_digit : ascii -> bool := in_range 48 57.
Definition is_alpha (c : ascii) : bool := is_upper c || is_lower c.

(** [_WHATWG_C0_CONTROL_OR_SPACE] *)
Definition is_c0_control_or_space : ascii -> bool := in_range 0 32.

(** [_UNSAFE_URL_BYTES_TO_REMOVE = ['\t', '\r', '\n']] *)
Definition is_unsafe_url_byte (c : ascii) : bool :=
  (nat_of_ascii c =? 9)%nat || (nat_of_ascii c =? 13)%nat
  || (nat_of_ascii c =? 10)%nat.

(** [scheme_chars]: letters, digits and ["+-."]. *)
Definition is_scheme_char (c : ascii) : bool :=
  is_alpha c || is_digit c || contains c "+-.".

Definition lower_char (c : ascii) : ascii :=
  if is_upper c then ascii_of_nat (nat_of_ascii c + 32) else c.

Fixpoint lower (s : string) : string :=
  match s with
  | EmptyString => EmptyString
  | String a s' => String (lower_char a) (lower s')
  end.

Definition uses_netloc : list string :=
  [""; "ftp"; "http"; "gopher"; "nntp"; "telnet"; "imap"; "wais"; "file";
   "mms"; "https"; "shttp"; "snews"; "prospero"; "rtsp"; "rtspu"; "rsync";
   "svn"; "svn+ssh"; "sftp"; "nfs"; "git"; "git+ssh"; "ws"; "wss"].

Definition uses_params : list string :=
  [""; "ftp"; "hdl"; "prospero"; "http"; "imap"; "https"; "shttp"; "rtsp";
   "rtspu"; "sip"; "sips"; "mms"; "sftp"; "tel"].

Definition mem (s : string) (l : list string) : bool :=
  existsb (String.eqb s) l.

Record SplitResult := mkSplit {
  s_scheme : string; s_netloc : string; s_path : string;
  s_query : string; s_fragment : string }.

Record ParseResult := mkParse {
  scheme : string; netloc : string; path : string;
  params : string; query : string; fragment : string }.

(** The scheme test of [urlsplit]: [i = url.find(':')], [i > 0], first
    character an ASCII letter, all of [url[:i]] in [scheme_chars]. *)
Definition split_scheme (url : string) : string * string :=
  match partition ":" url with
  | Some (String c0 pre, rest) =>
      if is_alpha c0 && all_chars is_scheme_char (String c0 pre)
      then (lower (String c0 pre), rest)
      else (EmptyString, url)
  | _ => (EmptyString, url)
  end.

(** [_splitnetloc(url, 2)] on [url] = ["//" ++ rest]. *)
Definition _splitnetloc (rest : string) : string * string :=
  break (fun c => contains c "/?#") rest.

(** [urlsplit(url)]; [None] stands for [ValueError("Invalid IPv6 URL")]. *)
Definition urlsplit (url : string) : option SplitResult :=
  let url := lstrip is_c0_control_or_space url in
  let url := keep (fun c => negb (is_unsafe_url_byte c)) url in
  let '(sch, url) := split_scheme url in
  let '(nl, url) :=
    if startswith "//" url then _splitnetloc (drop 2 url)
    else (EmptyString, url) in
  if (contains "[" nl && negb (contains "]" nl))
     || (contains "]" nl && negb (contains "[" nl))
  then None
  else
    let '(url, frag) :=
      match partition "#" url with
      | Some (u, f) => (u, f)
      | None => (url, EmptyString)
      end in
    let '(url, qry) :=
      match partition "?" url with
      | Some (u, q) => (u, q)
      | None => (url, EmptyString)
      end in
    Some (mkSplit sch nl url qry frag).

(** [(s[:k], s[k:])] with [k = s.rfind('/')], when ['/' in s]. *)
Fixpoint rsplit_slash (s : string) : option (string * string) :=
  match s with
  | EmptyString => None
  | String a s' =>
      match rsplit_slash s' with
      | Some (p, q) => Some (String a p, q)
      | None => if Ascii.eqb a "/" then Some (EmptyString, s) else None
      end
  end.

Definition _splitparams (url : string) : string * string :=
  match rsplit_slash url with
  | Some (p, q) =>
      match partition ";" q with
      | Some (a, b) => (p +:+ a, b)
      | None => (url, EmptyString)
      end
  | None =>
      match partition ";" url with
      | Some (a, b) => (a, b)
      | None => (url, EmptyString)
      end
  end.

Definition urlparse (url : string) : option ParseResult :=
  match urlsplit url with
  | None => None
  | Some r =>
      let '(p, prm) :=
        if mem (s_scheme r) uses_params && contains ";" (s_path r)
        then _splitparams (s_path r)
        else (s_path r, EmptyString) in
      Some (mkParse (s_scheme r) (s_netloc r) p prm (s_query r) (s_fragment r))
  end.

Definition urlunsplit (sch nl url qry frag : string) : string :=
  let url :=
    if truthy nl
       || (truthy sch && mem sch uses_netloc && negb (startswith "//" url))
    then "//" +:+ nl +:+
         (if truthy url && negb (startswith "/" url) then "/" +:+ url else url)
    else url in
  let url := if truthy sch then sch +:+ ":" +:+ url else url in
  let url := if truthy qry then url +:+ "?" +:+ qry else url in
  if truthy frag then url +:+ "#" +:+ frag else url.

Definition urlunparse (r : ParseResult) : string :=
  let url := if truthy (params r) then path r +:+ ";" +:+ params r
             else path r in
  urlunsplit (scheme r) (netloc r) url (query r) (fragment r).

(** *** Percent-escapes *)

Definition hex_val (c : ascii) : option nat :=
  if is_digit c then Some (nat_of_ascii c - 48)
  else if in_range 65 70 c then Some (nat_of_ascii c - 55)
  else if in_range 97 102 c then Some (nat_of_ascii c - 87)
  else None.

Definition hex_digit (n : nat) : ascii :=
  if (n <? 10)%nat then ascii_of_nat (48 + n) else ascii_of_nat (55 + n).

(** [unquote_to_bytes]: ["%XY"] with two hex digits becomes one byte, any
    other ["%"] stays. *)
Fixpoint unquote_to_bytes (s : string) : string :=
  match s with
  | EmptyString => EmptyString
  | String a s1 =>
      if Ascii.eqb a "%" then
        match s1 with
        | String h (String l s2) =>
            match hex_val h, hex_val l with
            | Some x, Some y =>
                String (ascii_of_nat (16 * x + y)) (unquote_to_bytes s2)
            | _, _ => String a (unquote_to_bytes s1)
            end
        | _ => String a (unquote_to_bytes s1)
        end
      else String a (unquote_to_bytes s1)
  end.

Definition unquote (s : string) : string :=
  if negb (contains "%" s) then s else unquote_to_bytes s.

(** [_ALWAYS_SAFE]: letters, digits and ["_.-~"]. *)
Definition always_safe (c : ascii) : bool :=
  is_alpha c || is_digit c || contains c "_.-~".

Definition quote_byte (c : ascii) : string :=
  String "%" (String (hex_digit (nat_of_ascii c / 16))
                     (String (hex_digit (nat_of_ascii c mod 16)) EmptyString)).

(** [quote_from_bytes(bs, safe)] with [safe] either [''] or [' ']. *)
Fixpoint quote_from_bytes (space_safe : bool) (s : string) : string :=
  match s with
  | EmptyString => EmptyString
  | String a s' =>
      (if always_safe a || (space_safe && Ascii.eqb a " ")
       then String a EmptyString else quote_byte a)
      +:+ quote_from_bytes space_safe s'
  end.

Definition quote_plus (s : string) : string :=
  if negb (contains " " s) then quote_from_bytes false s
  else replace_char " " "+" (quote_from_bytes true s).

(** *** Query strings *)

(** [parse_qsl(qs)] with the defaults [keep_blank_values=False],
    [strict_parsing=False], [separator='&']. *)
Definition parse_field (name_value : string) : option (string * string) :=
  if negb (truthy name_value) then None
  else match partition "=" name_value with
       | None => None
       | Some (n, v) =>
           if truthy v
           then Some (unquote (replace_char "+" " " n),
                      unquote (replace_char "+" " " v))
           else None
       end.

Definition parse_qsl (qs : string) : list (string * string) :=
  omap parse_field (if truthy qs then split "&" qs else []).

(** A [dict] from names to value lists, in insertion order. *)
Definition qdict := list (string * list string).

Fixpoint qdict_add (name value : string) (d : qdict) : qdict :=
  match d with
  | [] => [(name, [value])]
  | (k, vs) :: d' =>
      if String.eqb k name then (k, (vs ++ [value])%list) :: d'
      else (k, vs) :: qdict_add name value d'
  end.

Definition parse_qs (qs : string) : qdict :=
  fold_left (fun d nv => qdict_add (fst nv) (snd nv) d) (parse_qsl qs) [].

(** [d.pop(name, None)] *)
Definition qdict_pop (name : string) (d : qdict) : qdict :=
  List.filter (fun kv => negb (String.eqb (fst kv) name)) d.

(** [urlencode(d, doseq=True)] *)
Definition urlencode (d : qdict) : string :=
  join "&"
    (List.concat (map (fun kv =>
       map (fun v => quote_plus (fst kv) +:+ "=" +:+ quote_plus v) (snd kv)) d)).

End Url.

(* ====================================================================== *)
(** ** Data model *)
(* ====================================================================== *)

(** The values of [DownloadTask.status]. *)
Inductive Status :=
  Queued | Downloading | Processing | Completed | Failed | Cancelled.

Global Instance Status_eq_dec : EqDecision Status.
Proof. solve_decision. Defined.

Record DownloadTask := mkTask {
  task_id : string;
  url : string;
  title : string;
  download_type : string;          (* "video" | "audio" *)
  quality : string;
  format_type : string;
  is_playlist : bool;
  status : Status;
  progress : Q;
  speed : string;
  eta : string;
  file_path : option string;
  error : option string;
  created_at : Z }.

Definition with_status (st : Status) (t : DownloadTask) : DownloadTask :=
  mkTask (task_id t) (url t) (title t) (download_type t) (quality t)
    (format_type t) (is_playlist t) st (progress t) (speed t) (eta t)
    (file_path t) (error t) (created_at t).

Definition with_progress (p : Q) (t : DownloadTask) : DownloadTask :=
  mkTask (task_id t) (url t) (title t) (download_type t) (quality t)
    (format_type t) (is_playlist t) (status t) p (speed t) (eta t)
    (file_path t) (error t) (created_at t).

Definition with_speed_eta (s e : string) (t : DownloadTask) : DownloadTask :=
  mkTask (task_id t) (url t) (title t) (download_type t) (quality t)
    (format_type t) (is_playlist t) (status t) (progress t) s e
    (file_path t) (error t) (created_at t).

Definition with_file_path (f : option string) (t : DownloadTask) : DownloadTask :=
  mkTask (task_id t) (url t) (title t) (download_type t) (quality t)
    (format_type t) (is_playlist t) (status t) (progress t) (speed t) (eta t)
    f (error t) (created_at t).

Definition with_error (e : option string) (t : DownloadTask) : DownloadTask :=
  mkTask (task_id t) (url t) (title t) (download_type t) (quality t)
    (format_type t) (is_playlist t) (status t) (progress t) (speed t) (eta t)
    (file_path t) e (created_at t).

(** What [DownloadManager.__init__] and the module import fix for the life
    of the process.  [ffmpeg_location] is [str(Path(self._ffmpeg_path).parent)]
    and [out_tmpl] is [str(self.download_dir / "%(title)s.%(ext)s")]; [pathlib]
    is not modelled. *)
Record Config := mkConfig {
  yt_dlp : bool;                    (* [import yt_dlp] succeeded *)
  _ytdlp_binary : option string;
  _ffmpeg_path : option string;
  ffmpeg_location : string;
  out_tmpl : string }.

(** Where a worker coroutine is suspended. *)
Inductive Worker :=
| AtLoop                (* about to test [while not self._shutdown] *)
| InGet                 (* in [wait_for(self.queue.get(), timeout=1.0)] *)
| InSem (r : nat)       (* waiting for a permit of [self.semaphore] *)
| InRun (r : nat)       (* in [_process_task], the extraction outstanding *)
| Exited.

Record Manager := mkManager {
  cfg : Config;
  heap : list DownloadTask;          (* the task objects, by reference *)
  queue : list nat;                  (* [self.queue], oldest first *)
  active_tasks : gmap string nat;    (* [self.active_tasks] *)
  completed_tasks : list nat;        (* [self.completed_tasks] *)
  semaphore : nat;                   (* free permits *)
  _shutdown : bool;
  workers : list Worker }.

Definition MAX_CONCURRENT : nat := 3.

(** The manager after [__init__] and the start of [process_queue]. *)
Definition init (c : Config) : Manager :=
  mkManager c [] [] ∅ [] MAX_CONCURRENT false (replicate MAX_CONCURRENT AtLoop).

Definition set_heap (h : list DownloadTask) (m : Manager) : Manager :=
  mkManager (cfg m) h (queue m) (active_tasks m) (completed_tasks m)
    (semaphore m) (_shutdown m) (workers m).

Definition set_queue (q : list nat) (m : Manager) : Manager :=
  mkManager (cfg m) (heap m) q (active_tasks m) (completed_tasks m)
    (semaphore m) (_shutdown m) (workers m).

Definition set_active (a : gmap string nat) (m : Manager) : Manager :=
  mkManager (cfg m) (heap m) (queue m) a (completed_tasks m)
    (semaphore m) (_shutdown m) (workers m).

Definition set_completed (l : list nat) (m : Manager) : Manager :=
  mkManager (cfg m) (heap m) (queue m) (active_tasks m) l
    (semaphore m) (_shutdown m) (workers m).

Definition set_semaphore (n : nat) (m : Manager) : Manager :=
  mkManager (cfg m) (heap m) (queue m) (active_tasks m) (completed_tasks m)
    n (_shutdown m) (workers m).

Definition set_shutdown (b : bool) (m : Manager) : Manager :=
  mkManager (cfg m) (heap m) (queue m) (active_tasks m) (completed_tasks m)
    (semaphore m) b (workers m).

Definition set_worker (w : nat) (ws : Worker) (m : Manager) : Manager :=
  mkManager (cfg m) (heap m) (queue m) (active_tasks m) (completed_tasks m)
    (semaphore m) (_shutdown m) (<[w := ws]> (workers m)).

(** A field update of the task object [r], seen through every alias. *)
Definition update_task (r : nat) (f : DownloadTask -> DownloadTask)
    (m : Manager) : Manager :=
  set_heap (alter f r (heap m)) m.

(** Outcome of a call: a value, or a raised exception with its [str()]. *)
Inductive result (A : Type) :=
| Return (a : A)
| Raise (exc : string).
Arguments Return {A} a.
Arguments Raise {A} exc.

(* ====================================================================== *)
(** ** Operations of [DownloadManager] *)
(* ====================================================================== *)

(** [_strip_playlist_params]; [None] when [urlparse] raises [ValueError]. *)
Definition _strip_playlist_params (u : string) : option string :=
  match Url.urlparse u with
  | None => None
  | Some parsed =>
      let params := Url.parse_qs (Url.query parsed) in
      let params := Url.qdict_pop "list" params in
      let params := Url.qdict_pop "index" params in
      let clean_query := Url.urlencode params in
      Some (Url.urlunparse
              (Url.mkParse (Url.scheme parsed) (Url.netloc parsed)
                 (Url.path parsed) (Url.params parsed) clean_query
                 (Url.fragment parsed)))
  end.

(** [add_download].  [uuid4] is the text of [uuid.uuid4()] and [now] the
    value of [datetime.now()], both supplied by the environment. *)
Definition add_download (uuid4 : string) (now : Z)
    (u download_type : string) (is_playlist : bool)
    (quality format_type title : string) (m : Manager)
    : result (string * Manager) :=
  match (if negb is_playlist then _strip_playlist_params u else Some u) with
  | None => Raise "Invalid IPv6 URL"
  | Some u' =>
      let task_id := PyStr.take 8 uuid4 in
      let task := mkTask task_id u' title download_type quality format_type
                    is_playlist Queued 0 "–" "–" None None now in
      let r := length (heap m) in
      let m := set_heap (heap m ++ [task]) m in
      let m := set_active (<[task_id := r]> (active_tasks m)) m in
      let m := set_queue (queue m ++ [r]) m in
      Return (task_id, m)
  end.

(** [cancel_task] *)
Definition cancel_task (task_id : string) (m : Manager) : bool * Manager :=
  match active_tasks m !! task_id with
  | Some r =>
      let m := set_active (delete task_id (active_tasks m)) m in
      let m := update_task r (with_status Cancelled) m in
      (true, m)
  | None => (false, m)
  end.

(** [shutdown] *)
Definition shutdown (m : Manager) : Manager := set_shutdown true m.

(** *** Workers *)

(** The [finally] block of [_process_task]:
    [self.completed_tasks.append(task)], then
    [self.active_tasks.pop(task.task_id, None)]. *)
Definition finalize (r : nat) (t : DownloadTask) (m : Manager) : Manager :=
  let m := set_completed (completed_tasks m ++ [r]) m in
  set_active (delete (task_id t) (active_tasks m)) m.

(** Leaving [async with self.semaphore] and going back to the loop head. *)
Definition release (w : nat) (m : Manager) : Manager :=
  set_worker w AtLoop (set_semaphore (S (semaphore m)) m).

Definition no_capability_msg : string :=
  "Neither yt-dlp library nor binary is available. " +:+
  "Install yt-dlp: pip install yt-dlp".

(** [_process_task] from its entry to its first suspension, run by worker
    [w] holding a permit.  With a strategy available the worker suspends in
    the executor call; with none, [RuntimeError] is raised and handled on
    the spot. *)
Definition _process_task_begin (w r : nat) (m : Manager) : option Manager :=
  match heap m !! r with
  | None => None
  | Some t =>
      let m := update_task r (with_status Downloading) m in
      if yt_dlp (cfg m) then Some (set_worker w (InRun r) m)
      else if PyStr.truthy_opt (_ytdlp_binary (cfg m))
      then Some (set_worker w (InRun r) m)
      else
        let m := update_task r
                   (fun t => with_error (Some no_capability_msg)
                               (with_status Failed t)) m in
        Some (release w (finalize r t m))
  end.

(** The event dictionary yt-dlp passes to a progress hook.  A key that is
    absent, or present with a falsy value where the hook tests truthiness,
    is [None]; [_percent_str] carries what [float(...)] returns for it,
    [Some None] when that raises [ValueError]. *)
Record HookDict := mkHook {
  h_status : string;
  downloaded_bytes : option Q;
  total_bytes : option Q;
  _percent_str : option (option Q);
  _speed_str : option string;
  _eta_str : option string;
  filename : option string }.

(** [_progress_hook] of [_download_via_library] *)
Definition _progress_hook (d : HookDict) (t : DownloadTask) : DownloadTask :=
  if String.eqb (h_status d) "downloading" then
    let t :=
      match downloaded_bytes d, total_bytes d with
      | Some db, Some tb =>
          if negb (Qeq_bool tb 0) then with_progress (db / tb * 100)%Q t
          else match _percent_str d with
               | Some (Some p) => with_progress p t
               | _ => t
               end
      | _, _ =>
          match _percent_str d with
          | Some (Some p) => with_progress p t
          | _ => t
          end
      end in
    with_speed_eta (default "–" (_speed_str d)) (default "–" (_eta_str d)) t
  else if String.eqb (h_status d) "finished" then
    with_file_path (filename d) (with_progress 100 (with_status Processing t))
  else t.

(** How the awaited extraction call ends. *)
Inductive ExtResult :=
| Returned                                   (* [ydl.download] returned *)
| ProcessExit (returncode : Z) (stderr : string)   (* [subprocess.run] returned *)
| Raised (msg : string)                      (* the call raised; [str(exc)] *)
| AwaitCancelled.                            (* [asyncio.CancelledError] *)

Inductive Outcome := OReturn | ORaise (msg : string) | OCancelled.

(** The rest of [_download_via_library] / [_download_via_binary] once the
    executor call has ended; [None] when the result does not belong to the
    strategy in use. *)
Definition _download_end (c : Config) (res : ExtResult) (t : DownloadTask)
    : option (DownloadTask * Outcome) :=
  if yt_dlp c then
    match res with
    | Returned => Some (t, OReturn)
    | Raised msg => Some (t, ORaise msg)
    | AwaitCancelled => Some (t, OCancelled)
    | ProcessExit _ _ => None
    end
  else
    match res with
    | ProcessExit rc stderr =>
        if (rc =? 0)%Z then Some (with_progress 100 t, OReturn)
        else Some (t, ORaise (if PyStr.truthy (PyStr.take 500 stderr)
                              then PyStr.take 500 stderr
                              else "yt-dlp binary failed"))
    | Raised msg => Some (t, ORaise msg)
    | AwaitCancelled => Some (t, OCancelled)
    | Returned => None
    end.

(** The tail of the [try] and the [except] clauses of [_process_task]. *)
Definition _process_task_outcome (o : Outcome) (t : DownloadTask)
    : DownloadTask :=
  match o with
  | OReturn => with_progress 100 (with_status Completed t)
  | OCancelled => with_status Cancelled t
  | ORaise msg => with_error (Some msg) (with_status Failed t)
  end.

(** [_process_task] from the end of the extraction call to its return,
    followed by the release of the permit. *)
Definition _process_task_end (w r : nat) (res : ExtResult) (m : Manager)
    : option Manager :=
  match heap m !! r with
  | None => None
  | Some t =>
      match _download_end (cfg m) res t with
      | None => None
      | Some (t', o) =>
          let m := update_task r (fun _ => _process_task_outcome o t') m in
          Some (release w (finalize r t m))
      end
  end.

(** One iteration of [_worker] from [queue.get()] returning a task. *)
Definition _worker_get (w : nat) (m : Manager) : option Manager :=
  match workers m !! w, queue m with
  | Some InGet, r :: q =>
      let m := set_queue q m in
      match heap m !! r with
      | None => None
      | Some t =>
          if decide (status t = Cancelled) then Some (set_worker w AtLoop m)
          else match semaphore m with
               | S n => _process_task_begin w r (set_semaphore n m)
               | O => Some (set_worker w (InSem r) m)
               end
      end
  | _, _ => None
  end.

(** Events: calls from the HTTP layer, and resumptions of the workers. *)
Inductive Event :=
| EvAdd (uuid4 : string) (now : Z) (u download_type : string)
        (is_playlist : bool) (quality format_type title : string)
| EvCancel (task_id : string)
| EvShutdown
| EvLoop (w : nat)        (* the test of [while not self._shutdown] *)
| EvTimeout (w : nat)     (* [wait_for] timed out on an empty queue *)
| EvGet (w : nat)         (* [queue.get()] returned *)
| EvAcquire (w : nat)     (* a permit became available *)
| EvHook (w : nat) (d : HookDict)   (* a progress hook call *)
| EvDone (w : nat) (res : ExtResult).

(** [step e m] is the manager after event [e], [None] when [e] cannot
    happen in [m]. *)
Definition step (e : Event) (m : Manager) : option Manager :=
  match e with
  | EvAdd uuid4 now u dt pl q f ti =>
      match add_download uuid4 now u dt pl q f ti m with
      | Return (_, m') => Some m'
      | Raise _ => Some m
      end
  | EvCancel id => Some (snd (cancel_task id m))
  | EvShutdown => Some (shutdown m)
  | EvLoop w =>
      match workers m !! w with
      | Some AtLoop =>
          Some (set_worker w (if _shutdown m then Exited else InGet) m)
      | _ => None
      end
  | EvTimeout w =>
      match workers m !! w, queue m with
      | Some InGet, [] => Some (set_worker w AtLoop m)
      | _, _ => None
      end
  | EvGet w => _worker_get w m
  | EvAcquire w =>
      match workers m !! w, semaphore m with
      | Some (InSem r), S n => _process_task_begin w r (set_semaphore n m)
      | _, _ => None
      end
  | EvHook w d =>
      match workers m !! w with
      | Some (InRun r) =>
          if yt_dlp (cfg m) then Some (update_task r (_progress_hook d) m)
          else None
      | _ => None
      end
  | EvDone w res =>
      match workers m !! w with
      | Some (InRun r) => _process_task_end w r res m
      | _ => None
      end
  end.

(** The states the manager can be in. *)
Inductive reachable (c : Config) : Manager -> Prop :=
| reachable_init : reachable c (init c)
| reachable_step m e m' :
    reachable c m -> step e m = Some m' -> reachable c m'.

(** Running a list of events in order. *)
Fixpoint run (es : list Event) (m : Manager) : option Manager :=
  match es with
  | [] => Some m
  | e :: es' =>
      match step e m with
      | Some m' => run es' m'
      | None => None
      end
  end.

(* ====================================================================== *)
(** ** The two extraction strategies: what each asks of yt-dlp *)
(* ====================================================================== *)

(** [_build_binary_command].  It is called only when
    [self._ytdlp_binary] is set. *)
Definition _build_binary_command (c : Config) (task : DownloadTask)
    : list string :=
  let cmd := [default "" (_ytdlp_binary c)] in
  let cmd :=
    if String.eqb (download_type task) "audio" then
      cmd ++ ["-x"; "--audio-format"; format_type task;
              "--audio-quality"; quality task;
              "--add-metadata"]
    else
      let height :=
        PyStr.keep (fun a => negb (Ascii.eqb a "p")) (quality task) in
      if String.eqb height "best" then
        cmd ++ ["-f"; "bestvideo+bestaudio/best"]
      else if Url.mem height ["2160"; "1440"] then
        ((cmd ++ ["-f"; "bestvideo[height<=" +:+ height +:+ "][format="
                        +:+ format_type task +:+ "]+bestaudio/best"])
           ++ ["--merge-output-format"; format_type task])
           ++ ["--add-metadata"]
      else
        (cmd ++ ["-f"; "bestvideo[height<=" +:+ height +:+ "][format="
                       +:+ format_type task +:+ "]+bestaudio/best"])
           ++ ["--merge-output-format"; format_type task] in
  let cmd :=
    if PyStr.truthy_opt (_ffmpeg_path c)
    then cmd ++ ["--ffmpeg-location"; ffmpeg_location c]
    else cmd in
  cmd ++ ["-o"; "%(title)s.%(ext)s"; url task].

Inductive Postprocessor :=
| FFmpegExtractAudio (preferredcodec preferredquality : string)
| FFmpegMetadata.

(** The option dictionary of [_build_ydl_options]; a key the function may
    leave out is an [option].  The constant entry ["logger": None] has no
    field. *)
Record YdlOptions := mkOpts {
  outtmpl : string;
  quiet : bool;
  no_warnings : bool;
  noprogress : bool;
  extract_flat : bool;
  writethumbnail : bool;
  opt_ffmpeg_location : option string;
  opt_format : string;
  postprocessors : option (list Postprocessor);
  merge_output_format : option string;
  noplaylist : bool }.

(** [_build_ydl_options] *)
Definition _build_ydl_options (c : Config) (task : DownloadTask)
    : YdlOptions :=
  let ffl := if PyStr.truthy_opt (_ffmpeg_path c)
             then Some (ffmpeg_location c) else None in
  if String.eqb (download_type task) "audio" then
    mkOpts (out_tmpl c) true true true false false ffl
      "bestaudio/best"
      (Some [FFmpegExtractAudio (format_type task) (quality task);
             FFmpegMetadata])
      None
      (negb (is_playlist task))
  else
    let fmt :=
      if String.eqb (quality task) "best" then "bestvideo+bestaudio/best"
      else
        let h := PyStr.keep (fun a => negb (Ascii.eqb a "p")) (quality task) in
        "bestvideo[height<=" +:+ h +:+ "]+bestaudio/best[height<=" +:+ h
          +:+ "]" in
    mkOpts (out_tmpl c) true true true false false ffl
      fmt None (Some (format_type task)) (negb (is_playlist task)).

(** The value given to command-line option [opt] in an argument list. *)
Fixpoint cli_option (opt : string) (cmd : list string) : option string :=
  match cmd with
  | a :: ((v :: _) as rest) =>
      if String.eqb a opt then Some v else cli_option opt rest
  | _ => None
  end.

(* ====================================================================== *)
(** ** The [/add-download] handler of [server.py] *)
(* ====================================================================== *)





(* ====================================================================== *)
(** ** The other handlers of [server.py] *)
(* ====================================================================== *)

(** The body of the [/health] answer. *)
Record Health := mkHealth {
  health_status : string;
  queue_size : nat;
  active_downloads : nat }.

(** [health_check]: [queue.qsize()] and [len(active_tasks)]. *)
Definition health_check (m : Manager) : Health :=
  mkHealth "online" (length (queue m)) (size (active_tasks m)).

(** What [DELETE /cancel/{task_id}] answers: the dictionary of the success
    case, or the [HTTPException] that leaves the handler. *)
Inductive CancelReply :=
| CancelResponse (status message : string)
| CancelException (status_code : nat) (detail : string).

(** [cancel_download].  The [HTTPException(404)] of the [else] branch is
    raised inside the [try], so the handler's own [except Exception]
    catches it and raises [HTTPException(500, detail=str(e))]. *)
Definition handle_cancel_download (task_id : string) (m : Manager)
    : CancelReply * Manager :=
  let '(success, m') := cancel_task task_id m in
  if success
  then (CancelResponse "success" ("Task " +:+ task_id +:+ " cancelled"), m')
  else (CancelException 500 "404: Task not found", m').

(* ====================================================================== *)
(** ** Vocabulary of the properties *)
(* ====================================================================== *)

Definition is_busy (st : Status) : bool :=
  match st with Downloading | Processing => true | _ => false end.

Definition is_terminal (st : Status) : bool :=
  match st with Completed | Failed | Cancelled => true | _ => false end.


(** The status of task object [r]. *)
Definition status_of (m : Manager) (r : nat) : option Status :=
  status <$> heap m !! r.

(** Task object [r] is a value of the active-task index. *)
Definition in_index (m : Manager) (r : nat) : Prop :=
  exists k, active_tasks m !! k = Some r.

(** Task object [r] is in the hands of a worker. *)
Definition holds (ws : Worker) (r : nat) : Prop :=
  ws = InSem r \/ ws = InRun r.

Definition held (m : Manager) (r : nat) : Prop :=
  exists w ws, workers m !! w = Some ws /\ holds ws r.

(** The tasks whose extraction is outstanding, one per running worker. *)
Definition running_of (ws : Worker) : option nat :=
  match ws with InRun r => Some r | _ => None end.

Definition running (m : Manager) : list nat := omap running_of (workers m).

(** What a worker state contributes to the number of running workers. *)
Definition runs (ws : Worker) : nat :=
  match running_of ws with Some _ => 1 | None => 0 end.

(** A worker that has no task in hand. *)
Definition idle (ws : Worker) : Prop :=
  ws = AtLoop \/ ws = InGet \/ ws = Exited.

(** At least one extraction strategy is available. *)
Definition has_capability (c : Config) : bool :=
  yt_dlp c || PyStr.truthy_opt (_ytdlp_binary c).

(** Task object [r] has been dequeued by no worker yet, or waits for a
    permit: its processing has not begun. *)
Definition pending (m : Manager) (r : nat) : Prop :=
  r ∈ queue m \/ exists w, workers m !! w = Some (InSem r).

(** The invariant of the manager's state. *)
Record Inv (m : Manager) : Prop := mkInv {
  inv_workers : length (workers m) = MAX_CONCURRENT;
  inv_permits : length (running m) + semaphore m = MAX_CONCURRENT;
  inv_queue_sorted : StronglySorted lt (queue m);
  inv_queue_lt : forall r, r ∈ queue m -> r < length (heap m);
  inv_held_lt : forall r, held m r -> r < length (heap m);
  inv_held_queue : forall r, held m r -> r ∉ queue m;
  inv_held_inj : forall w w' ws ws' r,
      workers m !! w = Some ws -> workers m !! w' = Some ws' ->
      holds ws r -> holds ws' r -> w = w';
  inv_done_nodup : NoDup (completed_tasks m);
  inv_done_lt : forall r, r ∈ completed_tasks m -> r < length (heap m);
  inv_done_queue : forall r, r ∈ completed_tasks m -> r ∉ queue m;
  inv_done_held : forall r, r ∈ completed_tasks m -> ~ held m r;
  inv_done_index : forall r, r ∈ completed_tasks m -> ~ in_index m r;
  inv_index_id : forall k r, active_tasks m !! k = Some r ->
      exists t, heap m !! r = Some t /\ task_id t = k;
  inv_busy : forall r t, heap m !! r = Some t ->
      is_busy (status t) = true ->
      exists w, workers m !! w = Some (InRun r);
  inv_final : forall r t, heap m !! r = Some t ->
      status t = Completed \/ status t = Failed -> r ∈ completed_tasks m;
  inv_pending : forall r t, pending m r -> heap m !! r = Some t ->
      (status t = Queued \/ status t = Cancelled) /\ file_path t = None;
  inv_error : forall r t, heap m !! r = Some t ->
      (is_Some (error t) <-> status t = Failed);
  inv_path : forall r t, heap m !! r = Some t -> is_Some (file_path t) ->
      yt_dlp (cfg m) = true /\ status t <> Queued /\ status t <> Downloading;
  inv_done_terminal : forall r t, r ∈ completed_tasks m ->
      heap m !! r = Some t -> is_terminal (status t) = true }.












(** The fields of a task that come from the request, and its creation
    time. *)
Definition same_request (t t' : DownloadTask) : Prop :=
  task_id t' = task_id t /\ url t' = url t /\ title t' = title t /\
  download_type t' = download_type t /\ quality t' = quality t /\
  format_type t' = format_type t /\ is_playlist t' = is_playlist t /\
  created_at t' = created_at t.

(** The task objects some worker has in hand, in worker order. *)
Definition holds_of (ws : Worker) : option nat :=
  match ws with InSem r | InRun r => Some r | _ => None end.

Definition held_list (m : Manager) : list nat := omap holds_of (workers m).

(** Task object [r] waits in the queue or is in the hands of a worker. *)
Definition in_flight (m : Manager) (r : nat) : Prop :=
  r ∈ queue m \/ held m r.

(** Every entry of the active-task index leads to a task that waits in
    the queue or is in the hands of a worker, and that is not cancelled. *)
Definition index_live (m : Manager) : Prop :=
  forall k r, active_tasks m !! k = Some r ->
    in_flight m r /\ status_of m r <> Some Cancelled.

(** How one event can leave task object [r] with the value [t']: untouched,
    newly created, cancelled, started, failed for want of a strategy,
    updated by a progress hook, or finished. *)
Inductive task_change (m : Manager) (r : nat) (t' : DownloadTask) : Prop :=
| tc_same : heap m !! r = Some t' -> task_change m r t'
| tc_new : heap m !! r = None -> r = length (heap m) ->
    status t' = Queued -> task_change m r t'
| tc_cancel t : heap m !! r = Some t -> in_index m r ->
    t' = with_status Cancelled t -> task_change m r t'
| tc_start t : heap m !! r = Some t ->
    t' = with_status Downloading t -> task_change m r t'
| tc_nocap t : heap m !! r = Some t ->
    t' = with_error (Some no_capability_msg) (with_status Failed t) ->
    task_change m r t'
| tc_hook t w d : heap m !! r = Some t ->
    workers m !! w = Some (InRun r) -> t' = _progress_hook d t ->
    task_change m r t'
| tc_end t w res t1 o : heap m !! r = Some t ->
    workers m !! w = Some (InRun r) ->
    _download_end (cfg m) res t = Some (t1, o) ->
    t' = _process_task_outcome o t1 -> task_change m r t'.

(** *** URLs with a plain query *)

(** ["k=v"] *)
Definition render_pair (kv : string * string) : string :=
  fst kv +:+ "=" +:+ snd kv.

(** ["k1=v1&k2=v2&..."] *)
Definition render_query (ps : list (string * string)) : string :=
  PyStr.join "&" (map render_pair ps).

(** A part of a URL behind its delimiter, nothing when the part is empty. *)
Definition with_delim (delim s : string) : string :=
  match s with EmptyString => EmptyString | _ => delim +:+ s end.

(** [scheme://netloc/path?query#fragment], the query and the fragment with
    their delimiter only when they are not empty. *)
Definition render_url (scheme netloc path : string)
    (ps : list (string * string)) (fragment : string) : string :=
  scheme +:+ "://" +:+ netloc +:+ path +:+
  with_delim "?" (render_query ps) +:+ with_delim "#" fragment.

(** The characters of a rendered query of plain parameters. *)
Definition query_char (c : ascii) : bool :=
  Url.always_safe c || PyStr.contains c "&=".

Definition is_playlist_param (kv : string * string) : bool :=
  String.eqb (fst kv) "list" || String.eqb (fst kv) "index".

(** The parameters other than [list] and [index], in their order. *)
Definition without_playlist_params (ps : list (string * string))
    : list (string * string) :=
  List.filter (fun kv => negb (is_playlist_param kv)) ps.

Definition netloc_char (c : ascii) : bool :=
  Url.always_safe c || Ascii.eqb c ":".

Definition path_char (c : ascii) : bool :=
  negb (PyStr.contains c "?#;") && negb (Url.is_unsafe_url_byte c).

Definition fragment_char (c : ascii) : bool :=
  negb (Url.is_unsafe_url_byte c).

Definition plain_param (kv : string * string) : Prop :=
  PyStr.all_chars Url.always_safe (fst kv) = true /\
  PyStr.all_chars Url.always_safe (snd kv) = true /\
  snd kv <> "".

(** An http(s) URL with a host, a path without [;], and a query whose
    parameters have pairwise distinct names and non-empty values, names and
    values made of letters, digits and ["_.-~"]. *)
Record plain_url (scheme netloc path : string)
    (ps : list (string * string)) (fragment : string) : Prop := mkPlain {
  plain_scheme : scheme = "http" \/ scheme = "https";
  plain_netloc_ne : netloc <> "";
  plain_netloc : PyStr.all_chars netloc_char netloc = true;
  plain_path_abs : path = "" \/ PyStr.startswith "/" path = true;
  plain_path : PyStr.all_chars path_char path = true;
  plain_fragment : PyStr.all_chars fragment_char fragment = true;
  plain_params : Forall plain_param ps;
  plain_distinct : NoDup (map fst ps) }.

(* ====================================================================== *)
(** ** Sample configurations and runs *)
(* ====================================================================== *)

(** The yt-dlp library is importable. *)
Definition library_config : Config :=
  mkConfig true None (Some "/usr/bin/ffmpeg") "/usr/bin"
    "/home/user/Downloads/PyFlow/%(title)s.%(ext)s".

(** Only the standalone binary is present. *)
Definition binary_config : Config :=
  mkConfig false (Some "/usr/bin/yt-dlp") (Some "/usr/bin/ffmpeg") "/usr/bin"
    "/home/user/Downloads/PyFlow/%(title)s.%(ext)s".


(** A single-video request for a URL that carries playlist parameters. *)
Definition sample_add (uuid4 : string) : Event :=
  EvAdd uuid4 0 "https://x.test/watch?v=abc&list=PL1&index=3"
    "video" false "720p" "mp4" "clip".

(** A video task asking for at most 720 lines in an mp4 container. *)
Definition sample_video_task : DownloadTask :=
  mkTask "a3f1c2d4" "https://x.test/watch?v=abc" "clip" "video" "720p" "mp4"
    false Queued 0 "–" "–" None None 0.




Definition uuid_a : string := "a3f1c2d4-0000-4000-8000-000000000001".
Definition uuid_b : string := "b7e2d3c5-0000-4000-8000-000000000002".
Definition uuid_c : string := "c9d4e5f6-0000-4000-8000-000000000003".
Definition uuid_d : string := "d1a2b3c4-0000-4000-8000-000000000004".
Definition uuid_e : string := "e5f6a7b8-0000-4000-8000-000000000005".

(** Five requests in a burst, then every worker runs up to its first
    suspension inside [_process_task]. *)
Definition burst_events : list Event :=
  [sample_add uuid_a; sample_add uuid_b; sample_add uuid_c;
   sample_add uuid_d; sample_add uuid_e;
   EvLoop 0; EvLoop 1; EvLoop 2; EvGet 0; EvGet 1; EvGet 2].

Definition burst_state : Manager :=
  Eval vm_compute in
    default (init library_config) (run burst_events (init library_config)).

(** One request, cancelled while it waits in the queue, then met by a
    worker. *)
Definition cancel_queued_events : list Event :=
  [sample_add uuid_a; EvCancel "a3f1c2d4"; EvLoop 0; EvGet 0].

Definition cancel_queued_state : Manager :=
  Eval vm_compute in
    default (init library_config) (run cancel_queued_events (init library_config)).



(** One request served by the binary, which exits with status 0. *)
Definition binary_success_events : list Event :=
  [sample_add uuid_a; EvLoop 0; EvGet 0; EvDone 0 (ProcessExit 0 "")].

Definition binary_success_state : Manager :=
  Eval vm_compute in
    default (init binary_config) (run binary_success_events (init binary_config)).



(** The five requests of the burst alone. *)
Definition burst_adds : list Event :=
  [sample_add uuid_a; sample_add uuid_b; sample_add uuid_c;
   sample_add uuid_d; sample_add uuid_e].

Definition burst_queued_state : Manager :=
  Eval vm_compute in
    default (init library_config) (run burst_adds (init library_config)).

(** The manager after one request whose query repeats a name. *)
Definition repeated_state : Manager :=
  Eval vm_compute in
    match add_download uuid_a 0 "https://x.test/watch?a=1&b=2&a=3&list=PL1"
            "video" false "best" "mp4" "clip" (init library_config) with
    | Return (_, m') => m'
    | Raise _ => init library_config
    end.



(** An audio task and a video task of quality [best]. *)
Definition sample_audio_task : DownloadTask :=
  mkTask "a3f1c2d4" "https://x.test/watch?v=abc" "song" "audio" "192" "mp3"
    false Queued 0 "–" "–" None None 0.

Definition sample_best_task : DownloadTask :=
  mkTask "a3f1c2d4" "https://x.test/watch?v=abc" "clip" "video" "best" "mkv"
    false Queued 0 "–" "–" None None 0.

(** The burst, then a sixth request whose UUID starts like the first. *)
Definition collision_state : Manager :=
  Eval vm_compute in
    match add_download uuid_a 0 "https://x.test/watch?v=xyz" "video" false
            "best" "mp4" "other" burst_state with
    | Return (_, m') => m'
    | Raise _ => burst_state
    end.

(** Names for the fields of the invariant. *)
Ltac inv_fields H :=
  destruct H as [Iw Ip Iqs Iql Ihl Ihq Ihi Idn Idl Idq Idh Idi Iid Ib If Ipe
                   Ie Ipa Idt].

(* ====================================================================== *)
(** ** Lists of tasks and of workers *)
(* ====================================================================== *)

Lemma lookup_alter_inv {A} (f : A -> A) (l : list A) i j y :
  alter f i l !! j = Some y ->
  exists x, l !! j = Some x /\ ((i = j /\ y = f x) \/ (i <> j /\ y = x)).
Proof.
  rewrite list_lookup_alter. intros H.
  destruct (decide (i = j)) as [->|Hne], (l !! j) as [x|];
    simplify_eq/=; eauto.
Qed.

Lemma running_elem (ws : list Worker) (r : nat) :
  r ∈ omap running_of ws <-> exists w, ws !! w = Some (InRun r).
Proof.
  rewrite list_elem_of_omap. split.
  - intros (x & Hx & Hr). destruct x; simpl in Hr; try done.
    injection Hr as ->. by apply list_elem_of_lookup.
  - intros [w Hw]. exists (InRun r). split; [|done].
    apply list_elem_of_lookup. eauto.
Qed.

Lemma running_insert_length (ws : list Worker) (w : nat) old new :
  ws !! w = Some old ->
  length (omap running_of (<[w := new]> ws)) + runs old
  = length (omap running_of ws) + runs new.
Proof.
  revert w. induction ws as [|x ws IH]; intros w Hw; [done|].
  destruct w as [|w]; simpl in *.
  - injection Hw as ->. unfold runs. cbn.
    destruct (running_of old), (running_of new); simpl; lia.
  - specialize (IH w Hw). cbn. unfold omap in IH.
    destruct (running_of x); simpl; lia.
Qed.

Lemma insert_lookup_inv {A} (l : list A) i j x y :
  <[i := x]> l !! j = Some y ->
  (i = j /\ y = x) \/ (i <> j /\ l !! j = Some y).
Proof.
  intros H. apply list_lookup_insert_Some in H as [(-> & <- & _)|[? ?]]; eauto.
Qed.

Lemma StronglySorted_snoc (l : list nat) x :
  StronglySorted lt l -> (forall y, y ∈ l -> y < x) ->
  StronglySorted lt (l ++ [x]).
Proof.
  induction 1 as [|a l Hs IH Ha]; intros Hlt; simpl.
  - repeat constructor.
  - constructor.
    + apply IH. intros y Hy. apply Hlt. by right.
    + apply Forall_app. split; [done|].
      constructor; [|constructor]. apply Hlt. by left.
Qed.

Lemma StronglySorted_head_notin (a : nat) l :
  StronglySorted lt (a :: l) -> a ∉ l.
Proof.
  intros H Hin. apply StronglySorted_inv in H as [_ Hall].
  rewrite Forall_forall in Hall. specialize (Hall a Hin). lia.
Qed.


(* ====================================================================== *)
(** ** The invariant holds in every reachable state *)
(* ====================================================================== *)

Lemma replicate_lookup_AtLoop n w ws :
  replicate n AtLoop !! w = Some ws -> ws = AtLoop.
Proof. intros H. by apply lookup_replicate in H as [-> _]. Qed.

Lemma Inv_init c : Inv (init c).
Proof.
  assert (Hh : forall r, ~ held (init c) r).
  { intros r (w & ws & Hw & Hh). apply replicate_lookup_AtLoop in Hw as ->.
    by destruct Hh. }
  split; simpl; try done; try constructor;
    try (intros r Hr'; by apply elem_of_nil in Hr');
    try (intros r H; by apply Hh in H).
  intros w w' ws ws' r Hw _ H.
  apply (replicate_lookup_AtLoop MAX_CONCURRENT) in Hw as ->. by destruct H.
Qed.

Lemma add_download_Return uuid4 now u dt pl q f ti m id m' :
  add_download uuid4 now u dt pl q f ti m = Return (id, m') ->
  exists u',
    (if negb pl then _strip_playlist_params u else Some u) = Some u' /\
    id = PyStr.take 8 uuid4 /\
    m' = mkManager (cfg m)
           (heap m ++ [mkTask id u' ti dt q f pl Queued 0 "–" "–" None None now])
           (queue m ++ [length (heap m)])
           (<[id := length (heap m)]> (active_tasks m))
           (completed_tasks m) (semaphore m) (_shutdown m) (workers m).
Proof.
  unfold add_download.
  destruct (if negb pl then _ else _) as [u'|]; [|done].
  intros [= <- <-]. by exists u'.
Qed.

Lemma add_download_Inv uuid4 now u dt pl q f ti m id m' :
  Inv m -> add_download uuid4 now u dt pl q f ti m = Return (id, m') -> Inv m'.
Proof.
  intros HI (u' & _ & _ & ->)%add_download_Return. inv_fields HI.
  set (t0 := mkTask _ _ _ _ _ _ _ _ _ _ _ _ _ _).
  assert (Hheld : forall r, held (mkManager (cfg m) (heap m ++ [t0])
             (queue m ++ [length (heap m)])
             (<[id := length (heap m)]> (active_tasks m))
             (completed_tasks m) (semaphore m) (_shutdown m) (workers m)) r
           -> held m r) by done.
  assert (Hlook : forall r t, (heap m ++ [t0]) !! r = Some t ->
            heap m !! r = Some t \/ (r = length (heap m) /\ t = t0)).
  { intros r t Hr. apply lookup_app_Some in Hr as [?|[? Hr]]; [by left|right].
    apply list_lookup_singleton_Some in Hr as [? ?]. split; [lia|done]. }
  split; simpl; try done.
  - apply StronglySorted_snoc; [done|]. auto.
  - intros r [Hr| ->%list_elem_of_singleton]%elem_of_app; rewrite length_app; simpl.
    + specialize (Iql r Hr). lia.
    + lia.
  - intros r Hr. rewrite length_app. specialize (Ihl r (Hheld r Hr)). lia.
  - intros r Hr [?| ->%list_elem_of_singleton]%elem_of_app.
    + by eapply Ihq.
    + specialize (Ihl _ (Hheld _ Hr)). lia.
  - intros r Hr. rewrite length_app. specialize (Idl r Hr). lia.
  - intros r Hr [?| ->%list_elem_of_singleton]%elem_of_app.
    + by eapply Idq.
    + specialize (Idl _ Hr). lia.
  - intros r Hr [k Hk]. simpl in Hk.
    apply lookup_insert_Some in Hk as [[_ <-]|[_ Hk]].
    + specialize (Idl _ Hr). lia.
    + apply (Idi r Hr). by exists k.
  - intros k r Hk. apply lookup_insert_Some in Hk as [[<- <-]|[_ Hk]].
    + exists t0. split; [|done]. by rewrite list_lookup_middle.
    + destruct (Iid k r Hk) as (t & Ht & <-). exists t. split; [|done].
      rewrite lookup_app_l; [done|]. by eapply lookup_lt_Some.
  - intros r t [Hr|[-> ->]]%Hlook Hb; [eauto|done].
  - intros r t [Hr|[-> ->]]%Hlook Hb; [eauto|]. by destruct Hb.
  - intros r t Hp [Hr|[-> ->]]%Hlook; [|auto].
    apply (Ipe r t); [|done].
    destruct Hp as [[?| ->%list_elem_of_singleton]%elem_of_app|?];
      [by left| |by right].
    apply lookup_lt_Some in Hr. lia.
  - intros r t [Hr|[-> ->]]%Hlook; [eauto|]. simpl. split; [by intros [? ?]|done].
  - intros r t [Hr|[-> ->]]%Hlook; [eauto|]. simpl. by intros [? ?].
  - intros r t Hr [Ht|[-> ->]]%Hlook; [eauto|]. specialize (Idl _ Hr). lia.
Qed.

Lemma not_final_of_index m r t :
  Inv m -> in_index m r -> heap m !! r = Some t ->
  status t <> Completed /\ status t <> Failed.
Proof.
  intros HI Hin Ht. inv_fields HI.
  split; intros Hs; apply (Idi r); eauto.
Qed.

Lemma not_final_of_held m r t :
  Inv m -> held m r -> heap m !! r = Some t ->
  status t <> Completed /\ status t <> Failed.
Proof.
  intros HI Hin Ht. inv_fields HI.
  split; intros Hs; apply (Idh r); eauto.
Qed.

Lemma error_None_iff m r t :
  Inv m -> heap m !! r = Some t -> status t <> Failed -> error t = None.
Proof.
  intros HI Ht Hs. inv_fields HI. destruct (error t) eqn:E; [|done].
  destruct Hs. apply (Ie r t Ht). rewrite E. eauto.
Qed.

Lemma cancel_task_Inv id m : Inv m -> Inv (snd (cancel_task id m)).
Proof.
  intros HI. unfold cancel_task.
  destruct (active_tasks m !! id) as [r|] eqn:Hid; [|done]. simpl.
  assert (Hnf : forall t, heap m !! r = Some t ->
                          status t <> Completed /\ status t <> Failed).
  { intros t. apply not_final_of_index; [done|]. by exists id. }
  assert (Herr : forall t, heap m !! r = Some t -> error t = None).
  { intros t Ht. eapply error_None_iff; [done..|]. by apply Hnf. }
  inv_fields HI.
  split; simpl; try done; try (intros r'; rewrite length_alter; by auto).
  - intros r' Hr' [k Hk]. simpl in Hk. apply lookup_delete_Some in Hk as [_ Hk].
    apply (Idi r' Hr'). by exists k.
  - intros k r' [_ Hk]%lookup_delete_Some.
    destruct (Iid k r' Hk) as (t & Ht & <-).
    destruct (decide (r = r')) as [->|Hne].
    + exists (with_status Cancelled t). rewrite list_lookup_alter_eq, Ht. done.
    + exists t. by rewrite list_lookup_alter_ne.
  - intros r' t' (t & Ht & [[-> ->]|[Hne ->]])%lookup_alter_inv Hb; [done|eauto].
  - intros r' t' (t & Ht & [[-> ->]|[Hne ->]])%lookup_alter_inv Hs; [|eauto].
    by destruct Hs.
  - intros r' t' Hp (t & Ht & [[-> ->]|[Hne ->]])%lookup_alter_inv; [|eauto].
    simpl. split; [by right|]. by apply (Ipe r' t).
  - intros r' t' (t & Ht & [[-> ->]|[Hne ->]])%lookup_alter_inv; [|eauto].
    simpl. rewrite (Herr t Ht). split; [by intros [? ?]|done].
  - intros r' t' (t & Ht & [[-> ->]|[Hne ->]])%lookup_alter_inv; [|eauto].
    simpl. intros Hf. destruct (Ipa r' t Ht Hf) as (? & _ & _). done.
  - intros r' t' Hr' (t & Ht & [[-> ->]|[Hne ->]])%lookup_alter_inv; [|eauto].
    destruct (Idi r' Hr'). by exists id.
Qed.

Lemma shutdown_Inv m : Inv m -> Inv (shutdown m).
Proof. intros HI. inv_fields HI. by split. Qed.

(** *** Worker moves *)

Lemma idle_not_holds ws r : idle ws -> ~ holds ws r.
Proof. intros [->|[->| ->]] [?|?]; done. Qed.

Lemma running_length_set m w old new :
  workers m !! w = Some old ->
  length (running (set_worker w new m)) + runs old
  = length (running m) + runs new.
Proof. apply running_insert_length. Qed.

(** A worker that is not running a task becomes idle: the loop test, a
    timeout, or a task dropped before it was begun. *)
Lemma to_idle_Inv m w old new :
  Inv m -> workers m !! w = Some old -> running_of old = None -> idle new ->
  Inv (set_worker w new m).
Proof.
  intros HI Hw Hold Hnew.
  pose proof (running_length_set m w old new Hw) as Hlen.
  assert (Hn0 : runs new = 0) by (by destruct Hnew as [->|[->| ->]]).
  assert (Ho0 : runs old = 0) by (unfold runs; by rewrite Hold).
  assert (Hheld : forall r, held (set_worker w new m) r -> held m r).
  { intros r (w' & ws' & Hw' & Hh). simpl in Hw'.
    apply insert_lookup_inv in Hw' as [[-> ->]|[_ Hw']].
    - by apply idle_not_holds in Hh.
    - by exists w', ws'. }
  assert (Hpend : forall r, pending (set_worker w new m) r -> pending m r).
  { intros r [?|[w' Hw']]; [by left|right]. simpl in Hw'.
    apply insert_lookup_inv in Hw' as [[-> ?]|[_ Hw']]; [|by exists w'].
    subst. by destruct Hnew as [?|[?|?]]. }
  inv_fields HI.
  split; simpl; try done; eauto.
  - by rewrite length_insert.
  - simpl in Hlen. unfold running in *. simpl in *. lia.
  - intros w1 w2 ws1 ws2 r H1 H2 Hh1 Hh2.
    apply insert_lookup_inv in H1 as [[-> ->]|[_ H1]];
      [by apply idle_not_holds in Hh1|].
    apply insert_lookup_inv in H2 as [[-> ->]|[_ H2]];
      [by apply idle_not_holds in Hh2|].
    eauto.
  - intros r Hr Hh. by apply (Idh r Hr), Hheld.
  - intros r t Ht Hb. destruct (Ib r t Ht Hb) as [w' Hw'].
    exists w'. rewrite list_lookup_insert_ne; [done|].
    intros ->. rewrite Hw in Hw'. injection Hw' as ->. done.
Qed.

(** [queue.get()] hands the oldest task to a waiting worker. *)
Lemma dequeue_Inv m w r q :
  Inv m -> workers m !! w = Some InGet -> queue m = r :: q ->
  Inv (set_worker w (InSem r) (set_queue q m)).
Proof.
  intros HI Hw Hq.
  pose proof (running_length_set m w InGet (InSem r) Hw) as Hlen.
  inv_fields HI. rewrite Hq in *.
  assert (Hrq : r ∉ q) by (by apply StronglySorted_head_notin).
  assert (Hheld : forall r', held (set_worker w (InSem r) (set_queue q m)) r' ->
                             r' = r \/ held m r').
  { intros r' (w' & ws' & Hw' & Hh). simpl in Hw'.
    apply insert_lookup_inv in Hw' as [[-> ->]|[_ Hw']].
    - left. by destruct Hh as [[= ->]|[=]].
    - right. by exists w', ws'. }
  split; simpl; try done; eauto.
  - by rewrite length_insert.
  - unfold running in *. simpl in *. unfold runs in Hlen. simpl in Hlen. lia.
  - by apply StronglySorted_inv in Iqs as [? _].
  - intros r' Hr'. apply Iql. by right.
  - intros r' [->|Hh]%Hheld; [|by apply Ihl]. apply Iql. by left.
  - intros r' [->|Hh]%Hheld; [done|]. intros Hin. apply (Ihq r' Hh). by right.
  - intros w1 w2 ws1 ws2 r' H1 H2 Hh1 Hh2.
    apply insert_lookup_inv in H1 as [[-> ->]|[Hn1 H1]];
      apply insert_lookup_inv in H2 as [[-> ->]|[Hn2 H2]]; eauto.
    + destruct Hh1 as [[= <-]|[=]]. destruct (Ihq r).
      * by exists w2, ws2.
      * by left.
    + destruct Hh2 as [[= <-]|[=]]. destruct (Ihq r).
      * by exists w1, ws1.
      * by left.
  - intros r' Hr' Hin. apply (Idq r' Hr'). by right.
  - intros r' Hr' [->|Hh]%Hheld; [|by apply (Idh r')].
    apply (Idq r Hr'). by left.
  - intros r' t Ht Hb. destruct (Ib r' t Ht Hb) as [w' Hw'].
    exists w'. rewrite list_lookup_insert_ne; [done|].
    intros ->. rewrite Hw in Hw'. done.
  - intros r' t [Hin|[w' Hw']] Ht; simpl in *.
    + apply (Ipe r' t); [|done]. left. rewrite Hq. by right.
    + apply insert_lookup_inv in Hw' as [[-> [= ->]]|[_ Hw']].
      * apply (Ipe r t); [|done]. left. rewrite Hq. by left.
      * apply (Ipe r' t); [|done]. right. by exists w'.
Qed.

(** A worker takes a permit and enters [_process_task]. *)
Lemma begin_Inv m w r n :
  Inv m -> workers m !! w = Some (InSem r) -> semaphore m = S n ->
  Inv (set_worker w (InRun r)
         (update_task r (with_status Downloading) (set_semaphore n m))).
Proof.
  intros HI Hw Hs.
  pose proof (running_length_set m w (InSem r) (InRun r) Hw) as Hlen.
  assert (Hwlt : w < length (workers m)) by (by eapply lookup_lt_Some).
  inv_fields HI.
  assert (Hhr : held m r) by (exists w, (InSem r); split; [done|by left]).
  assert (Hpr : pending m r) by (right; by exists w).
  set (m' := set_worker _ _ _).
  assert (Hheld : forall r', held m' r' -> held m r').
  { intros r' (w' & ws' & Hw' & Hh). simpl in Hw'.
    apply insert_lookup_inv in Hw' as [[<- ->]|[_ Hw']].
    - destruct Hh as [[=]|[= <-]]. done.
    - by exists w', ws'. }
  assert (Hpend : forall r', pending m' r' -> r' <> r /\ pending m r').
  { intros r' [Hin|[w' Hw']]; simpl in *.
    - split; [|by left]. intros ->. by apply (Ihq r).
    - apply insert_lookup_inv in Hw' as [[<- [=]]|[Hne Hw']].
      split; [|right; by exists w']. intros ->. apply Hne.
      apply (Ihi w w' (InSem r) (InSem r) r); [done|done|by left|by left]. }
  split; simpl; try done; eauto;
    try (intros r'; rewrite length_alter; by eauto).
  - by rewrite length_insert.
  - unfold running in *. simpl in *. unfold runs in Hlen. simpl in Hlen. lia.
  - intros w1 w2 ws1 ws2 r' H1 H2 Hh1 Hh2.
    apply insert_lookup_inv in H1 as [[<- ->]|[Hn1 H1]];
      apply insert_lookup_inv in H2 as [[<- ->]|[Hn2 H2]]; eauto.
    + destruct Hh1 as [[=]|[= <-]].
      apply (Ihi w w2 (InSem r) ws2 r); [done|done|by left|done].
    + destruct Hh2 as [[=]|[= <-]].
      apply (Ihi w1 w ws1 (InSem r) r); [done|done|done|by left].
  - intros r' Hr' Hh. by apply (Idh r' Hr'), Hheld.
  - intros k r' Hk. destruct (Iid k r' Hk) as (t & Ht & <-).
    destruct (decide (r = r')) as [->|Hne].
    + exists (with_status Downloading t). by rewrite list_lookup_alter_eq, Ht.
    + exists t. by rewrite list_lookup_alter_ne.
  - intros r' t' (t & Ht & [[-> ->]|[Hne ->]])%lookup_alter_inv Hb.
    + exists w. by apply list_lookup_insert_eq.
    + destruct (Ib r' t Ht Hb) as [w' Hw']. exists w'.
      rewrite list_lookup_insert_ne; [done|]. intros ->.
      rewrite Hw in Hw'. by injection Hw'.
  - intros r' t' (t & Ht & [[-> ->]|[Hne ->]])%lookup_alter_inv Hst; [|eauto].
    by destruct Hst.
  - intros r' t' [Hne Hp]%Hpend (t & Ht & [[-> ->]|[_ ->]])%lookup_alter_inv;
      [done|eauto].
  - intros r' t' (t & Ht & [[-> ->]|[Hne ->]])%lookup_alter_inv; [|eauto].
    simpl. destruct (Ipe r' t Hpr Ht) as [Hst _].
    rewrite (error_None_iff m r' t); [split; [by intros [? ?]|done]| |done|].
    + by split.
    + by destruct Hst as [-> | ->].
  - intros r' t' (t & Ht & [[-> ->]|[Hne ->]])%lookup_alter_inv; [|eauto].
    simpl. destruct (Ipe r' t Hpr Ht) as [_ ->]. by intros [? ?].
  - intros r' t' Hr' (t & Ht & [[-> ->]|[Hne ->]])%lookup_alter_inv; [|eauto].
    by destruct (Idh r' Hr').
Qed.

Lemma _progress_hook_fields d t :
  task_id (_progress_hook d t) = task_id t /\
  error (_progress_hook d t) = error t /\
  ((status (_progress_hook d t) = status t /\
    file_path (_progress_hook d t) = file_path t)
   \/ status (_progress_hook d t) = Processing).
Proof.
  unfold _progress_hook.
  destruct (String.eqb (h_status d) "downloading").
  - destruct (downloaded_bytes d), (total_bytes d);
      try destruct (negb _); try destruct (_percent_str d) as [[?|]|];
      simpl; auto.
  - destruct (String.eqb (h_status d) "finished"); simpl; auto.
Qed.

Lemma running_not_pending m w r :
  Inv m -> workers m !! w = Some (InRun r) -> ~ pending m r.
Proof.
  intros HI Hw. inv_fields HI. intros [Hin|[w' Hw']].
  - apply (Ihq r); [|done]. exists w, (InRun r). split; [done|by right].
  - assert (w = w') as <-.
    { apply (Ihi w w' (InRun r) (InSem r) r); [done|done|by right|by left]. }
    rewrite Hw in Hw'. done.
Qed.

(** A progress hook runs on the task of a running worker. *)
Lemma hook_Inv m w r d :
  Inv m -> workers m !! w = Some (InRun r) -> yt_dlp (cfg m) = true ->
  Inv (update_task r (_progress_hook d) m).
Proof.
  intros HI Hw Hyt.
  pose proof (running_not_pending m w r HI Hw) as Hnp.
  assert (Hhr : held m r) by (exists w, (InRun r); split; [done|by right]).
  pose proof (fun t => not_final_of_held m r t HI Hhr) as Hnf.
  pose proof (fun t Ht => error_None_iff m r t HI Ht (proj2 (Hnf t Ht))) as Herr.
  inv_fields HI.
  split; simpl; try done; eauto;
    try (intros r'; rewrite length_alter; by eauto).
  - intros k r' Hk. destruct (Iid k r' Hk) as (t & Ht & <-).
    destruct (decide (r = r')) as [->|Hne].
    + exists (_progress_hook d t). rewrite list_lookup_alter_eq, Ht.
      split; [done|]. apply _progress_hook_fields.
    + exists t. by rewrite list_lookup_alter_ne.
  - intros r' t' (t & Ht & [[-> ->]|[Hne ->]])%lookup_alter_inv Hb; eauto.
  - intros r' t' (t & Ht & [[-> ->]|[Hne ->]])%lookup_alter_inv Hst; [|eauto].
    destruct (_progress_hook_fields d t) as (_ & _ & [[Hs _]|Hs]);
      rewrite Hs in Hst.
    + by destruct (Hnf t Ht), Hst.
    + by destruct Hst.
  - intros r' t' Hp (t & Ht & [[-> ->]|[_ ->]])%lookup_alter_inv; [done|eauto].
  - intros r' t' (t & Ht & [[-> ->]|[Hne ->]])%lookup_alter_inv; [|eauto].
    destruct (_progress_hook_fields d t) as (_ & -> & [[-> _]| ->]); [eauto|].
    rewrite (Herr t Ht). split; [by intros [? ?]|done].
  - intros r' t' (t & Ht & [[-> ->]|[Hne ->]])%lookup_alter_inv; [|eauto].
    destruct (_progress_hook_fields d t) as (_ & _ & [[-> ->]| ->]); [eauto|].
    done.
  - intros r' t' Hr' (t & Ht & [[-> ->]|[Hne ->]])%lookup_alter_inv; [|eauto].
    by destruct (Idh r' Hr').
Qed.

(** The end of [_process_task]: the task object gets its final fields, is
    appended to the completed list and leaves the index; the permit is
    returned. *)
Lemma finish_Inv m w r t tn :
  Inv m -> workers m !! w = Some (InRun r) -> heap m !! r = Some t ->
  task_id tn = task_id t ->
  is_terminal (status tn) = true ->
  (is_Some (error tn) <-> status tn = Failed) ->
  (is_Some (file_path tn) -> yt_dlp (cfg m) = true) ->
  Inv (release w (finalize r t (update_task r (fun _ => tn) m))).
Proof.
  intros HI Hw Ht Hid Hterm Herr Hpath.
  pose proof (running_length_set m w (InRun r) AtLoop Hw) as Hlen.
  pose proof (running_not_pending m w r HI Hw) as Hnp.
  assert (Hhr : held m r) by (exists w, (InRun r); split; [done|by right]).
  inv_fields HI.
  set (m' := release _ _).
  assert (Hheld : forall r', held m' r' -> r' <> r /\ held m r').
  { intros r' (w' & ws' & Hw' & Hh). simpl in Hw'.
    apply insert_lookup_inv in Hw' as [[<- ->]|[Hne Hw']];
      [by destruct Hh|].
    split; [|by exists w', ws']. intros ->. apply Hne.
    apply (Ihi w w' (InRun r) ws' r); [done|done|by right|done]. }
  assert (Hpend : forall r', pending m' r' -> r' <> r /\ pending m r').
  { intros r' Hp. assert (pending m r') as Hp'.
    { destruct Hp as [?|[w' Hw']]; [by left|right]. simpl in Hw'.
      apply insert_lookup_inv in Hw' as [[<- [=]]|[Hne Hw']]. by exists w'. }
    split; [|done]. by intros ->. }
  split; simpl; try done; eauto;
    try (intros r'; rewrite length_alter; by eauto).
  - by rewrite length_insert.
  - unfold running in *. simpl in *. unfold runs in Hlen. simpl in Hlen. lia.
  - intros r' [_ Hh]%Hheld. rewrite length_alter. eauto.
  - intros r' [_ Hh]%Hheld. eauto.
  - intros w1 w2 ws1 ws2 r' H1 H2 Hh1 Hh2.
    apply insert_lookup_inv in H1 as [[<- ->]|[Hn1 H1]]; [by destruct Hh1|].
    apply insert_lookup_inv in H2 as [[<- ->]|[Hn2 H2]]; [by destruct Hh2|].
    eauto.
  - apply NoDup_app. split; [done|]. split; [|apply NoDup_singleton].
    intros r' Hr' ->%list_elem_of_singleton. by apply (Idh r).
  - intros r' [?| ->%list_elem_of_singleton]%elem_of_app;
      rewrite length_alter; eauto.
  - intros r' [?| ->%list_elem_of_singleton]%elem_of_app; eauto.
  - intros r' [Hr'| ->%list_elem_of_singleton]%elem_of_app [Hne Hh]%Hheld;
      [by apply (Idh r')|done].
  - intros r' Hr' [k Hk]. simpl in Hk.
    apply lookup_delete_Some in Hk as [Hne Hk].
    apply elem_of_app in Hr' as [Hr'| ->%list_elem_of_singleton].
    + apply (Idi r' Hr'). by exists k.
    + destruct (Iid k r Hk) as (t0 & Ht0 & Hk0). congruence.
  - intros k r' [Hne Hk]%lookup_delete_Some.
    destruct (Iid k r' Hk) as (t0 & Ht0 & Hk0). exists t0. split; [|done].
    rewrite list_lookup_alter_ne; [done|]. intros ->. congruence.
  - intros r' t' (t0 & Ht0 & [[-> ->]|[Hne ->]])%lookup_alter_inv Hb.
    + destruct (status tn); done.
    + destruct (Ib r' t0 Ht0 Hb) as [w' Hw']. exists w'.
      rewrite list_lookup_insert_ne; [done|]. intros ->. congruence.
  - intros r' t' (t0 & Ht0 & [[-> ->]|[Hne ->]])%lookup_alter_inv Hst.
    + apply elem_of_app. right. by apply list_elem_of_singleton.
    + apply elem_of_app. left. eauto.
  - intros r' t' [Hne Hp]%Hpend (t0 & ? & [[-> ->]|[_ ->]])%lookup_alter_inv;
      [done|eauto].
  - intros r' t' (t0 & Ht0 & [[-> ->]|[Hne ->]])%lookup_alter_inv; eauto.
  - intros r' t' (t0 & Ht0 & [[-> ->]|[Hne ->]])%lookup_alter_inv; [|eauto].
    intros Hf. split; [auto|]. destruct (status tn); done.
  - intros r' t' Hr' (t0 & Ht0 & [[-> ->]|[Hne ->]])%lookup_alter_inv; [done|].
    apply elem_of_app in Hr' as [Hr'| ->%list_elem_of_singleton]; [eauto|done].
Qed.

(** *** The steps *)

Lemma _process_task_begin_absorb w r ws m :
  _process_task_begin w r (set_worker w ws m) = _process_task_begin w r m.
Proof.
  unfold _process_task_begin. simpl. destruct (heap m !! r) as [t|]; [|done].
  unfold release, finalize, update_task, set_worker, set_heap, set_completed,
    set_active, set_semaphore. simpl.
  by rewrite !list_insert_insert_eq.
Qed.

Lemma _process_task_begin_Inv m w r n m' :
  Inv m -> workers m !! w = Some (InSem r) -> semaphore m = S n ->
  _process_task_begin w r (set_semaphore n m) = Some m' -> Inv m'.
Proof.
  intros HI Hw Hs. pose proof (begin_Inv m w r n HI Hw Hs) as HB.
  unfold _process_task_begin. simpl.
  destruct (heap m !! r) as [t|] eqn:Ht; [|done].
  destruct (yt_dlp (cfg m)) eqn:Hyt; [by intros [= <-]|].
  destruct (PyStr.truthy_opt _); [by intros [= <-]|].
  intros [= <-].
  set (mB := set_worker w (InRun r) _) in HB.
  set (tn := with_error (Some no_capability_msg) (with_status Failed t)).
  assert (Hfin : Inv (release w (finalize r (with_status Downloading t)
                          (update_task r (fun _ => tn) mB)))).
  { apply finish_Inv; try done.
    - simpl. apply list_lookup_insert_eq. by eapply lookup_lt_Some.
    - simpl. by rewrite list_lookup_alter_eq, Ht.
    - simpl. intros Hf.
      destruct (inv_pending m HI r t) as [_ Hnone];
        [right; by exists w|done|].
      rewrite Hnone in Hf. by destruct Hf. }
  match goal with |- Inv ?a => match type of Hfin with Inv ?b =>
    replace a with b; [done|] end end.
  unfold release, finalize, update_task, set_worker, set_heap, set_completed,
    set_active, set_semaphore, mB. simpl.
  rewrite list_insert_insert_eq. f_equal.
  apply list_alter_ext; [|done].
  intros x Hx. rewrite list_lookup_alter_eq, Ht in Hx. by injection Hx as <-.
Qed.

Lemma _worker_get_Inv m w m' : Inv m -> _worker_get w m = Some m' -> Inv m'.
Proof.
  intros HI. unfold _worker_get.
  destruct (workers m !! w) as [[| | | |]|] eqn:Hw; try done.
  destruct (queue m) as [|r q] eqn:Hq; [done|]. simpl.
  pose proof (dequeue_Inv m w r q HI Hw Hq) as HD.
  assert (HwD : workers (set_worker w (InSem r) (set_queue q m)) !! w
                = Some (InSem r)).
  { simpl. apply list_lookup_insert_eq. by eapply lookup_lt_Some. }
  destruct (heap m !! r) as [t|] eqn:Ht; [|done].
  destruct (decide (status t = Cancelled)) as [Hc|Hc].
  - intros [= <-].
    replace (set_worker w AtLoop (set_queue q m))
      with (set_worker w AtLoop (set_worker w (InSem r) (set_queue q m))).
    + eapply to_idle_Inv; [done|done|done|by left].
    + unfold set_worker. simpl. by rewrite list_insert_insert_eq.
  - destruct (semaphore m) as [|n] eqn:Hs; [by intros [= <-]|].
    intros Hb.
    apply (_process_task_begin_Inv _ w r n m' HD HwD Hs).
    rewrite <- Hb.
    change (set_semaphore n (set_worker w (InSem r) (set_queue q m)))
      with (set_worker w (InSem r) (set_semaphore n (set_queue q m))).
    apply _process_task_begin_absorb.
Qed.

Lemma _download_end_fields c res t t' o :
  _download_end c res t = Some (t', o) ->
  task_id t' = task_id t /\ status t' = status t /\ error t' = error t /\
  file_path t' = file_path t.
Proof.
  unfold _download_end.
  destruct (yt_dlp c), res; try destruct (_ =? _)%Z; intros [= <- <-]; done.
Qed.

Lemma _process_task_end_Inv m w r res m' :
  Inv m -> workers m !! w = Some (InRun r) ->
  _process_task_end w r res m = Some m' -> Inv m'.
Proof.
  intros HI Hw. unfold _process_task_end.
  destruct (heap m !! r) as [t|] eqn:Ht; [|done].
  destruct (_download_end _ _ _) as [[t' o]|] eqn:Hd; [|done].
  intros [= <-].
  apply _download_end_fields in Hd as (Hid & Hst & Her & Hfp).
  assert (Hhr : held m r) by (exists w, (InRun r); split; [done|by right]).
  assert (Hen : error t = None).
  { eapply error_None_iff; [done..|]. by eapply not_final_of_held. }
  apply finish_Inv; try done.
  - by destruct o.
  - by destruct o.
  - destruct o; simpl; rewrite ?Her, ?Hen;
      (split; [by intros [? ?]|done]) || (split; [done|eauto]).
  - intros Hf. apply (inv_path m HI r t Ht).
    rewrite <- Hfp. by destruct o.
Qed.

Theorem step_Inv e m m' : Inv m -> step e m = Some m' -> Inv m'.
Proof.
  intros HI. destruct e as [uuid4 now u dt pl qy fm ti|id| |w|w|w|w|w d|w res]; simpl.
  - destruct (add_download _ _ _ _ _ _ _ _ _) as [[id m1]|] eqn:Ha.
    + intros [= <-]. by eapply add_download_Inv.
    + by intros [= <-].
  - intros [= <-]. by apply cancel_task_Inv.
  - intros [= <-]. by apply shutdown_Inv.
  - destruct (workers m !! w) as [[| | | |]|] eqn:Hw; try done.
    intros [= <-]. eapply to_idle_Inv; [done..|].
    destruct (_shutdown m); [right; by right|right; by left].
  - destruct (workers m !! w) as [[| | | |]|] eqn:Hw; try done.
    destruct (queue m); [|done].
    intros [= <-]. eapply to_idle_Inv; [done..|by left].
  - by apply _worker_get_Inv.
  - destruct (workers m !! w) as [[| |r| |]|] eqn:Hw; try done.
    destruct (semaphore m) as [|n] eqn:Hs; [done|].
    by apply _process_task_begin_Inv.
  - destruct (workers m !! w) as [[| | |r|]|] eqn:Hw; try done.
    destruct (yt_dlp (cfg m)) eqn:Hyt; [|done].
    intros [= <-]. by eapply hook_Inv.
  - destruct (workers m !! w) as [[| | |r|]|] eqn:Hw; try done.
    by apply _process_task_end_Inv.
Qed.

Theorem reachable_Inv c m : reachable c m -> Inv m.
Proof.
  induction 1 as [|m e m' _ IH Hs]; [apply Inv_init|by eapply step_Inv].
Qed.

(* ====================================================================== *)
(** ** Runs *)
(* ====================================================================== *)

Lemma run_reachable c es m m' :
  reachable c m -> run es m = Some m' -> reachable c m'.
Proof.
  revert m. induction es as [|e es IH]; intros m Hr; simpl.
  - by intros [= <-].
  - destruct (step e m) as [m1|] eqn:Hs; [|done].
    apply IH. by eapply reachable_step.
Qed.

Lemma run_app es1 es2 m :
  run (es1 ++ es2) m = run es1 m ≫= run es2.
Proof.
  revert m. induction es1 as [|e es1 IH]; intros m; simpl; [done|].
  destruct (step e m) as [m1|]; [apply IH|done].
Qed.

Lemma _process_task_begin_cfg w r m m' :
  _process_task_begin w r m = Some m' -> cfg m' = cfg m.
Proof.
  unfold _process_task_begin. destruct (heap m !! r) as [t|]; [|done]. simpl.
  destruct (yt_dlp _); [by intros [= <-]|].
  destruct (PyStr.truthy_opt _); by intros [= <-].
Qed.

Lemma step_cfg e m m' : step e m = Some m' -> cfg m' = cfg m.
Proof.
  destruct e as [uuid4 now u dt pl qy fm ti|id| |w|w|w|w|w d|w res]; simpl.
  - unfold add_download. destruct (if negb _ then _ else _); by intros [= <-].
  - unfold cancel_task. destruct (_ !! _); by intros [= <-].
  - by intros [= <-].
  - destruct (workers m !! w) as [[| | | |]|]; try done. by intros [= <-].
  - destruct (workers m !! w) as [[| | | |]|], (queue m); try done.
    by intros [= <-].
  - unfold _worker_get.
    destruct (workers m !! w) as [[| | | |]|], (queue m) as [|r0 q];
      try done. simpl.
    destruct (heap m !! r0) as [t|]; [|done].
    destruct (decide _); [by intros [= <-]|].
    destruct (semaphore m); [by intros [= <-]|].
    intros H. by apply _process_task_begin_cfg in H.
  - destruct (workers m !! w) as [[| |r| |]|]; try done.
    destruct (semaphore m); [done|].
    intros H. by apply _process_task_begin_cfg in H.
  - destruct (workers m !! w) as [[| | |r|]|]; try done.
    destruct (yt_dlp _); [|done]. by intros [= <-].
  - destruct (workers m !! w) as [[| | |r|]|]; try done.
    unfold _process_task_end. destruct (heap m !! r) as [t|]; [|done].
    destruct (_download_end _ _ _) as [[? ?]|]; [|done]. by intros [= <-].
Qed.

Lemma reachable_cfg c m : reachable c m -> cfg m = c.
Proof.
  induction 1 as [|m e m' _ IH Hs]; [done|].
  by rewrite (step_cfg _ _ _ Hs).
Qed.

(* ====================================================================== *)
(** ** The concurrency ceiling *)
(* ====================================================================== *)



Lemma burst_state_run :
  run burst_events (init library_config) = Some burst_state.
Proof. vm_compute. reflexivity. Qed.


(* ====================================================================== *)
(** ** What a step can change *)
(* ====================================================================== *)

Lemma _process_task_begin_effect w r m m' :
  _process_task_begin w r m = Some m' ->
  exists t, heap m !! r = Some t /\
    ((has_capability (cfg m) = true /\
      m' = set_worker w (InRun r) (update_task r (with_status Downloading) m))
     \/
     (has_capability (cfg m) = false /\
      m' = release w (finalize r t
             (update_task r
                (fun _ => with_error (Some no_capability_msg)
                            (with_status Failed t)) m)))).
Proof.
  unfold _process_task_begin, has_capability.
  destruct (heap m !! r) as [t|] eqn:Ht; [|done]. simpl.
  destruct (yt_dlp (cfg m)); [intros [= <-]; eauto|].
  destruct (PyStr.truthy_opt _); [intros [= <-]; eauto|].
  intros [= <-]. exists t. split; [done|right]. split; [done|].
  unfold release, finalize, update_task, set_worker, set_heap, set_completed,
    set_active, set_semaphore. simpl. f_equal.
  rewrite list_alter_alter_eq. apply list_alter_ext; [|done].
  intros x Hx. rewrite Ht in Hx. by injection Hx as <-.
Qed.

Lemma _process_task_begin_heap w r m m' r' :
  _process_task_begin w r m = Some m' -> r' <> r ->
  heap m' !! r' = heap m !! r'.
Proof.
  intros H Hne.
  apply _process_task_begin_effect in H as (t & _ & [[_ ->]|[_ ->]]); simpl;
    by rewrite list_lookup_alter_ne.
Qed.









(** Task objects are never removed from the store. *)
Lemma step_heap_length e m m' :
  step e m = Some m' -> length (heap m) <= length (heap m').
Proof.
  intros Hs. destruct e as [uuid4 now u dt pl qy fm ti|id| |w|w|w|w|w d|w res]; simpl in *.
  - destruct (add_download _ _ _ _ _ _ _ _ _) as [[id m1]|] eqn:Ha.
    + apply add_download_Return in Ha as (u' & _ & _ & ->).
      injection Hs as <-. simpl. rewrite length_app. lia.
    + by injection Hs as <-.
  - injection Hs as <-. unfold cancel_task.
    destruct (active_tasks m !! id); [|done]. simpl.
    by rewrite length_alter.
  - by injection Hs as <-.
  - destruct (workers m !! w) as [[| | | |]|]; try done. by injection Hs as <-.
  - destruct (workers m !! w) as [[| | | |]|], (queue m); try done.
    by injection Hs as <-.
  - unfold _worker_get in Hs.
    destruct (workers m !! w) as [[| | | |]|] eqn:Hw; try done.
    destruct (queue m) as [|r0 q] eqn:Hq; [done|]. simpl in Hs.
    destruct (heap m !! r0) as [t0|] eqn:Ht0; [|done].
    destruct (decide (status t0 = Cancelled)); [by injection Hs as <-|].
    destruct (semaphore m); [by injection Hs as <-|].
    apply _process_task_begin_effect in Hs as (t & _ & [[_ ->]|[_ ->]]);
      simpl; by rewrite length_alter.
  - destruct (workers m !! w) as [[| |r0| |]|] eqn:Hw; try done.
    destruct (semaphore m); [done|].
    apply _process_task_begin_effect in Hs as (t & _ & [[_ ->]|[_ ->]]);
      simpl; by rewrite length_alter.
  - destruct (workers m !! w) as [[| | |r0|]|] eqn:Hw; try done.
    destruct (yt_dlp _); [|done]. injection Hs as <-. simpl.
    by rewrite length_alter.
  - destruct (workers m !! w) as [[| | |r0|]|] eqn:Hw; try done.
    unfold _process_task_end in Hs.
    destruct (heap m !! r0) as [t0|]; [|done].
    destruct (_download_end _ _ _) as [[? ?]|]; [|done].
    injection Hs as <-. simpl. by rewrite length_alter.
Qed.

(* ====================================================================== *)
(** ** Tasks that have come to rest *)
(* ====================================================================== *)








Lemma _process_task_end_effect w r res m m' :
  _process_task_end w r res m = Some m' ->
  exists t t' o,
    heap m !! r = Some t /\ _download_end (cfg m) res t = Some (t', o) /\
    m' = release w (finalize r t
           (update_task r (fun _ => _process_task_outcome o t') m)).
Proof.
  unfold _process_task_end. destruct (heap m !! r) as [t|]; [|done].
  destruct (_download_end _ _ _) as [[t' o]|] eqn:Hd; [|done].
  intros [= <-]. by exists t, t', o.
Qed.


Lemma status_of_Some m r st :
  status_of m r = Some st <-> exists t, heap m !! r = Some t /\ status t = st.
Proof.
  unfold status_of. destruct (heap m !! r) as [t|]; simpl; split.
  - intros [= <-]. eauto.
  - by intros (? & [= <-] & <-).
  - done.
  - by intros (? & [=] & _).
Qed.

(* ====================================================================== *)
(** ** History and index *)
(* ====================================================================== *)


Lemma cancel_queued_state_run :
  run cancel_queued_events (init library_config) = Some cancel_queued_state.
Proof. vm_compute. reflexivity. Qed.



(* ====================================================================== *)
(** ** Terminal statuses *)
(* ====================================================================== *)





(* ====================================================================== *)
(** ** File path and error detail *)
(* ====================================================================== *)

(** C7, as the code has it.  For every task, at any time, the error detail
    is set exactly when the status is [Failed].  The file path is set only
    by the "finished" event of the library strategy: a task that has one
    was processed with the library and has left [Queued] and
    [Downloading]; under the binary strategy no task ever has one. *)
Theorem error_and_path c m r t :
  reachable c m -> heap m !! r = Some t ->
  (is_Some (error t) <-> status t = Failed) /\
  (is_Some (file_path t) ->
   yt_dlp c = true /\ status t <> Queued /\ status t <> Downloading).
Proof.
  intros Hr Ht. pose proof (reachable_Inv c m Hr) as HI.
  split; [by eapply inv_error|].
  intros Hf. rewrite <- (reachable_cfg c m Hr). by eapply inv_path.
Qed.

Lemma binary_success_state_run :
  run binary_success_events (init binary_config) = Some binary_success_state.
Proof. vm_compute. reflexivity. Qed.

Lemma error_and_path_witness :
  reachable binary_config binary_success_state /\
  (exists t, heap binary_success_state !! 0 = Some t /\
     (is_Some (error t) <-> status t = Failed)).
Proof.
  assert (H : reachable binary_config binary_success_state).
  { exact (run_reachable _ _ _ _ (reachable_init _) binary_success_state_run). }
  split; [exact H|].
  eexists. split; [reflexivity|].
  exact (proj1 (error_and_path binary_config binary_success_state 0 _ H eq_refl)).
Defined.

(** Under the binary strategy a download that succeeds ends [Completed]
    with neither a file path nor an error detail. *)
Lemma error_and_path_counterexample :
  reachable binary_config binary_success_state /\
  exists t, heap binary_success_state !! 0 = Some t /\
    status t = Completed /\ file_path t = None /\ error t = None.
Proof.
  split.
  - exact (run_reachable _ _ _ _ (reachable_init _) binary_success_state_run).
  - eexists. split; [reflexivity|]. by repeat split.
Qed.

(* ====================================================================== *)
(** ** Cancelling an unknown id *)
(* ====================================================================== *)

(** C10.  For a [task_id] that is not a key of the active-task index,
    [cancel_task] returns [False] and leaves the manager as it is: index,
    queue, completed list and every field of every task. *)
Theorem cancel_task_unknown id m :
  active_tasks m !! id = None -> cancel_task id m = (false, m).
Proof. intros H. unfold cancel_task. by rewrite H. Qed.

Lemma cancel_task_unknown_witness :
  active_tasks burst_state !! "deadbeef" = None /\
  cancel_task "deadbeef" burst_state = (false, burst_state).
Proof.
  assert (H : active_tasks burst_state !! "deadbeef" = None)
    by (vm_compute; reflexivity).
  split; [exact H|exact (cancel_task_unknown _ _ H)].
Defined.

(* ====================================================================== *)
(** ** Enqueueing through the HTTP handler *)
(* ====================================================================== *)






(* ====================================================================== *)
(** ** Permits *)
(* ====================================================================== *)

Lemma running_cons (x : Worker) (ws : list Worker) :
  omap running_of (x :: ws)
  = match running_of x with
    | Some r => r :: omap running_of ws
    | None => omap running_of ws
    end.
Proof. done. Qed.

Lemma running_length_le (ws : list Worker) :
  length (omap running_of ws) <= length ws.
Proof.
  induction ws as [|x ws IH]; [done|]. rewrite running_cons.
  destruct (running_of x); simpl; lia.
Qed.

Lemma running_length_lt (ws : list Worker) (w : nat) x :
  ws !! w = Some x -> running_of x = None ->
  length (omap running_of ws) < length ws.
Proof.
  revert w. induction ws as [|y ws IH]; intros w Hw Hx; [done|].
  rewrite running_cons. destruct w as [|w]; simpl in Hw.
  - injection Hw as ->. rewrite Hx.
    pose proof (running_length_le ws). simpl. lia.
  - specialize (IH w Hw Hx). destruct (running_of y); simpl; lia.
Qed.

(** A worker that is not inside [_process_task] always finds a free
    permit: there are as many permits as workers. *)
Lemma permit_available m w ws :
  Inv m -> workers m !! w = Some ws -> running_of ws = None ->
  exists n, semaphore m = S n.
Proof.
  intros HI Hw Hr.
  pose proof (running_length_lt (workers m) w ws Hw Hr) as Hlt.
  pose proof (inv_workers m HI) as Hl. pose proof (inv_permits m HI) as Hp.
  unfold running in Hp. destruct (semaphore m) as [|n]; [lia|by exists n].
Qed.

Lemma _process_task_begin_workers w r m m' w' ws :
  _process_task_begin w r m = Some m' -> workers m' !! w' = Some ws ->
  (w' = w /\ (ws = InRun r \/ ws = AtLoop)) \/
  (w' <> w /\ workers m !! w' = Some ws).
Proof.
  intros H Hw.
  apply _process_task_begin_effect in H as (t & _ & [[_ ->]|[_ ->]]);
    simpl in Hw; apply insert_lookup_inv in Hw as [[<- ->]|[? ?]]; auto.
Qed.

(** No step makes a worker wait for a permit. *)
Lemma step_InSem e m m' w r :
  Inv m -> step e m = Some m' -> workers m' !! w = Some (InSem r) ->
  workers m !! w = Some (InSem r).
Proof.
  intros HI Hs Hw.
  destruct e as [uuid4 now u dt pl qy fm ti|id| |w0|w0|w0|w0|w0 d|w0 res];
    simpl in *.
  - destruct (add_download _ _ _ _ _ _ _ _ _) as [[id m1]|] eqn:Ha.
    + apply add_download_Return in Ha as (u' & _ & _ & ->).
      by injection Hs as <-.
    + by injection Hs as <-.
  - injection Hs as <-. unfold cancel_task in Hw.
    by destruct (active_tasks m !! id).
  - by injection Hs as <-.
  - destruct (workers m !! w0) as [[| | | |]|]; try done. injection Hs as <-.
    simpl in Hw. apply insert_lookup_inv in Hw as [[<- Hx]|[_ ?]]; [|done].
    by destruct (_shutdown m).
  - destruct (workers m !! w0) as [[| | | |]|], (queue m); try done.
    injection Hs as <-. simpl in Hw.
    by apply insert_lookup_inv in Hw as [[<- Hx]|[_ ?]].
  - unfold _worker_get in Hs.
    destruct (workers m !! w0) as [[| | | |]|] eqn:Hw0; try done.
    destruct (queue m) as [|r0 q] eqn:Hq; [done|]. simpl in Hs.
    destruct (heap m !! r0) as [t0|] eqn:Ht0; [|done].
    destruct (decide (status t0 = Cancelled)).
    { injection Hs as <-. simpl in Hw.
      by apply insert_lookup_inv in Hw as [[<- Hx]|[_ ?]]. }
    destruct (permit_available m w0 InGet HI Hw0 eq_refl) as [k Hk].
    rewrite Hk in Hs.
    by apply (_process_task_begin_workers _ _ _ _ _ _ Hs) in Hw
      as [[_ [?|?]]|[_ ?]].
  - destruct (workers m !! w0) as [[| |r0| |]|] eqn:Hw0; try done.
    destruct (semaphore m); [done|].
    by apply (_process_task_begin_workers _ _ _ _ _ _ Hs) in Hw
      as [[_ [?|?]]|[_ ?]].
  - destruct (workers m !! w0) as [[| | |r0|]|] eqn:Hw0; try done.
    destruct (yt_dlp _); [|done]. by injection Hs as <-.
  - destruct (workers m !! w0) as [[| | |r0|]|] eqn:Hw0; try done.
    apply _process_task_end_effect in Hs as (t & t' & o & _ & _ & ->).
    simpl in Hw. by apply insert_lookup_inv in Hw as [[<- Hx]|[_ ?]].
Qed.

(** With as many permits as workers, no worker ever waits for one. *)
Lemma never_InSem c m w r :
  reachable c m -> workers m !! w <> Some (InSem r).
Proof.
  induction 1 as [|m e m' Hr IH Hs].
  - intros Hw. by apply (replicate_lookup_AtLoop MAX_CONCURRENT) in Hw.
  - intros Hw. apply IH. eapply step_InSem; [|done..].
    by eapply reachable_Inv.
Qed.

(* ====================================================================== *)
(** ** No extraction strategy *)
(* ====================================================================== *)






(* ====================================================================== *)
(** ** Order of service *)
(* ====================================================================== *)

Lemma status_of_heap m m' r :
  heap m' !! r = heap m !! r -> status_of m' r = status_of m r.
Proof. unfold status_of. by intros ->. Qed.

Lemma _process_task_outcome_status o t :
  status (_process_task_outcome o t) <> Downloading.
Proof. by destruct o. Qed.

(** A task enters [Downloading] only when a worker takes it from the front
    of the pending queue; nothing else changes in the store. *)
Lemma step_starts c e m m' r :
  reachable c m -> step e m = Some m' ->
  status_of m r <> Some Downloading -> status_of m' r = Some Downloading ->
  exists w q, e = EvGet w /\ workers m !! w = Some InGet /\
    queue m = r :: q /\ queue m' = q /\
    workers m' !! w = Some (InRun r) /\
    (forall r', r' <> r -> heap m' !! r' = heap m !! r').
Proof.
  intros Hr Hs Hn Hd. pose proof (reachable_Inv c m Hr) as HI.
  assert (Hsame : heap m' !! r = heap m !! r -> False).
  { intros He. apply Hn. by rewrite <- (status_of_heap m m' r He). }
  destruct e as [uuid4 now u dt pl qy fm ti|id| |w|w|w|w|w d|w res];
    simpl in Hs.
  - destruct (add_download _ _ _ _ _ _ _ _ _) as [[id m1]|] eqn:Ha;
      [|injection Hs as <-; by destruct Hsame].
    apply add_download_Return in Ha as (u' & _ & _ & ->). injection Hs as <-.
    apply status_of_Some in Hd as (t & Ht & Hst). simpl in Ht.
    apply lookup_app_Some in Ht as [Ht|[_ Ht]].
    + destruct Hn. apply status_of_Some. eauto.
    + apply list_lookup_singleton_Some in Ht as [_ <-]. done.
  - injection Hs as <-. unfold cancel_task in *.
    destruct (active_tasks m !! id) as [r0|]; [|by destruct Hsame]. simpl in *.
    apply status_of_Some in Hd as (t' & Ht' & Hst). simpl in Ht'.
    apply lookup_alter_inv in Ht' as (t & Ht & [[-> ->]|[_ ->]]); [done|].
    destruct Hn. apply status_of_Some. eauto.
  - injection Hs as <-. by destruct Hsame.
  - destruct (workers m !! w) as [[| | | |]|]; try done. injection Hs as <-.
    by destruct Hsame.
  - destruct (workers m !! w) as [[| | | |]|], (queue m); try done.
    injection Hs as <-. by destruct Hsame.
  - unfold _worker_get in Hs.
    destruct (workers m !! w) as [[| | | |]|] eqn:Hw; try done.
    destruct (queue m) as [|r0 q] eqn:Hq; [done|]. simpl in Hs.
    destruct (heap m !! r0) as [t0|] eqn:Ht0; [|done].
    destruct (decide (status t0 = Cancelled));
      [injection Hs as <-; by destruct Hsame|].
    destruct (semaphore m) as [|k]; [injection Hs as <-; by destruct Hsame|].
    destruct (decide (r = r0)) as [->|Hne].
    2:{ destruct Hsame.
        by rewrite (_process_task_begin_heap _ _ _ _ r Hs). }
    pose proof Hs as Hs'.
    apply _process_task_begin_effect in Hs as (t & Ht & [[_ ->]|[_ ->]]).
    + exists w, q. repeat split; try done.
      * simpl. apply list_lookup_insert_eq. by eapply lookup_lt_Some.
      * intros r' Hr'. simpl. by rewrite list_lookup_alter_ne.
    + apply status_of_Some in Hd as (t' & Ht' & Hst). simpl in Ht'.
      rewrite list_lookup_alter_eq in Ht'. simpl in Ht. rewrite Ht in Ht'.
      injection Ht' as <-. done.
  - destruct (workers m !! w) as [[| |r0| |]|] eqn:Hw; try done.
    by destruct (never_InSem c m w r0 Hr).
  - destruct (workers m !! w) as [[| | |r0|]|] eqn:Hw; try done.
    destruct (yt_dlp _); [|done]. injection Hs as <-.
    apply status_of_Some in Hd as (t' & Ht' & Hst). simpl in Ht'.
    apply lookup_alter_inv in Ht' as (t & Ht & [[-> ->]|[_ ->]]).
    + destruct (_progress_hook_fields d t) as (_ & _ & [[Hs _]|Hs]);
        rewrite Hs in Hst; [|done].
      destruct Hn. apply status_of_Some. eauto.
    + destruct Hn. apply status_of_Some. eauto.
  - destruct (workers m !! w) as [[| | |r0|]|] eqn:Hw; try done.
    apply _process_task_end_effect in Hs as (t & t' & o & Ht & _ & ->).
    apply status_of_Some in Hd as (t1 & Ht1 & Hst). simpl in Ht1.
    apply lookup_alter_inv in Ht1 as (t2 & Ht2 & [[-> ->]|[_ ->]]).
    + by destruct (_process_task_outcome_status o t').
    + destruct Hn. apply status_of_Some. eauto.
Qed.










Lemma burst_queued_state_run :
  run burst_adds (init library_config) = Some burst_queued_state.
Proof. vm_compute. reflexivity. Qed.


(* ====================================================================== *)
(** ** The two format selectors *)
(* ====================================================================== *)

Lemma append_cons x (a b : string) : String x a +:+ b = String x (a +:+ b).
Proof. reflexivity. Qed.

Lemma append_nil_l (b : string) : "" +:+ b = b.
Proof. reflexivity. Qed.

Ltac str_simpl := rewrite ?append_cons, ?append_nil_l.

Lemma append_cancel_l (a x y : string) : a +:+ x = a +:+ y -> x = y.
Proof. induction a as [|c a IH]; str_simpl; [done|]. intros [= H]. auto. Qed.

Lemma append_assoc (a b c : string) : (a +:+ b) +:+ c = a +:+ (b +:+ c).
Proof. induction a as [|x a IH]; str_simpl; [done|]. by f_equal. Qed.

Lemma append_nil_r (a : string) : a +:+ "" = a.
Proof. induction a as [|x a IH]; str_simpl; [done|]. by f_equal. Qed.

(** C5 (the code departs from the claim).  For a video task whose quality
    is not [best], the argument list built for the yt-dlp binary asks for
    [bestvideo[height<=H][format=F]+bestaudio/best] while the option
    dictionary built for the library asks for
    [bestvideo[height<=H]+bestaudio/best[height<=H]]: the two selectors are
    different texts, the binary's fallback [best] carries no height ceiling
    and its video stream carries a container filter the library's has not. *)
Theorem format_selectors_differ c task h :
  download_type task <> "audio" ->
  h = PyStr.keep (fun a => negb (Ascii.eqb a "p")) (quality task) ->
  h <> "best" ->
  cli_option "-f" (tail (_build_binary_command c task))
    = Some ("bestvideo[height<=" +:+ h +:+ "][format=" +:+ format_type task
              +:+ "]+bestaudio/best") /\
  opt_format (_build_ydl_options c task)
    = "bestvideo[height<=" +:+ h +:+ "]+bestaudio/best[height<=" +:+ h
        +:+ "]" /\
  cli_option "-f" (tail (_build_binary_command c task))
    <> Some (opt_format (_build_ydl_options c task)).
Proof.
  intros Ha -> Hb.
  set (h := PyStr.keep _ (quality task)) in *.
  assert (Hbin : cli_option "-f" (tail (_build_binary_command c task))
    = Some ("bestvideo[height<=" +:+ h +:+ "][format=" +:+ format_type task
              +:+ "]+bestaudio/best")).
  { unfold _build_binary_command.
    apply String.eqb_neq in Ha as ->. fold h.
    apply String.eqb_neq in Hb as ->.
    destruct (Url.mem h _); destruct (PyStr.truthy_opt _); done. }
  assert (Hlib : opt_format (_build_ydl_options c task)
    = "bestvideo[height<=" +:+ h +:+ "]+bestaudio/best[height<=" +:+ h
        +:+ "]").
  { unfold _build_ydl_options.
    apply String.eqb_neq in Ha as ->. cbn. fold h.
    destruct (String.eqb_spec (quality task) "best") as [Hq|]; [|done].
    exfalso. apply Hb. subst h. by rewrite Hq. }
  split; [done|]. split; [done|].
  rewrite Hbin, Hlib. intros [= H].
  do 2 apply append_cancel_l in H. rewrite !append_cons in H.
  discriminate H.
Qed.

Lemma format_selectors_differ_witness :
  cli_option "-f" (tail (_build_binary_command binary_config sample_video_task))
    = Some "bestvideo[height<=720][format=mp4]+bestaudio/best" /\
  opt_format (_build_ydl_options binary_config sample_video_task)
    = "bestvideo[height<=720]+bestaudio/best[height<=720]" /\
  cli_option "-f" (tail (_build_binary_command binary_config sample_video_task))
    <> Some (opt_format (_build_ydl_options binary_config sample_video_task)).
Proof.
  apply (format_selectors_differ binary_config sample_video_task "720").
  - discriminate.
  - reflexivity.
  - discriminate.
Defined.

(* ====================================================================== *)
(** ** Stripping the playlist parameters of a plain URL *)
(* ====================================================================== *)

(** *** Strings *)

Lemma all_chars_app p (a b : string) :
  PyStr.all_chars p (a +:+ b) = PyStr.all_chars p a && PyStr.all_chars p b.
Proof.
  induction a as [|x a IH]; str_simpl; cbn; [done|]. by rewrite IH, andb_assoc.
Qed.

Lemma all_chars_impl (p q : ascii -> bool) (s : string) :
  (forall c, p c = true -> q c = true) ->
  PyStr.all_chars p s = true -> PyStr.all_chars q s = true.
Proof.
  intros Hpq. induction s as [|x s IH]; cbn; [done|].
  intros [Hx Hs]%andb_true_iff. rewrite (Hpq _ Hx). cbn. auto.
Qed.

Lemma all_chars_and p q (s : string) :
  PyStr.all_chars (fun c => p c && q c) s = true ->
  PyStr.all_chars p s = true /\ PyStr.all_chars q s = true.
Proof.
  induction s as [|x s IH]; cbn; [done|].
  intros [[-> ->]%andb_true_iff Hs]%andb_true_iff. cbn. auto.
Qed.

Lemma contains_all_chars c (s : string) :
  PyStr.all_chars (fun a => negb (Ascii.eqb a c)) s = true ->
  PyStr.contains c s = false.
Proof.
  induction s as [|x s IH]; cbn; [done|].
  intros [Hx Hs]%andb_true_iff. apply negb_true_iff in Hx as ->. cbn. auto.
Qed.

Lemma keep_all p (s : string) :
  PyStr.all_chars p s = true -> PyStr.keep p s = s.
Proof.
  induction s as [|x s IH]; cbn; [done|].
  intros [-> Hs]%andb_true_iff. f_equal. auto.
Qed.

Lemma replace_char_absent c d (s : string) :
  PyStr.all_chars (fun a => negb (Ascii.eqb a c)) s = true ->
  PyStr.replace_char c d s = s.
Proof.
  induction s as [|x s IH]; cbn; [done|].
  intros [Hx Hs]%andb_true_iff. apply negb_true_iff in Hx as ->.
  f_equal. auto.
Qed.

(** [break] stops at the first character of the second part. *)
Lemma break_app p (a b : string) :
  PyStr.all_chars (fun c => negb (p c)) a = true ->
  match b with EmptyString => True | String x _ => p x = true end ->
  PyStr.break p (a +:+ b) = (a, b).
Proof.
  intros Ha Hb. induction a as [|x a IH]; str_simpl; cbn in *.
  - destruct b as [|y b]; [done|]. cbn. by rewrite Hb.
  - apply andb_true_iff in Ha as [Hx Ha]. apply negb_true_iff in Hx as ->.
    by rewrite (IH Ha).
Qed.

Lemma partition_app c (a b : string) :
  PyStr.all_chars (fun x => negb (Ascii.eqb x c)) a = true ->
  PyStr.partition c (a +:+ String c b) = Some (a, b).
Proof.
  intros Ha. unfold PyStr.partition.
  rewrite break_app; [done|done|]. apply Ascii.eqb_refl.
Qed.

Lemma partition_absent c (a : string) :
  PyStr.all_chars (fun x => negb (Ascii.eqb x c)) a = true ->
  PyStr.partition c a = None.
Proof.
  intros Ha. unfold PyStr.partition.
  rewrite <-(append_nil_r a) at 1. by rewrite break_app.
Qed.

Lemma split_absent c (a : string) :
  PyStr.all_chars (fun x => negb (Ascii.eqb x c)) a = true ->
  PyStr.split c a = [a].
Proof.
  induction a as [|x a IH]; cbn; [done|].
  intros [Hx Ha]%andb_true_iff. apply negb_true_iff in Hx as ->.
  by rewrite (IH Ha).
Qed.

Lemma split_app c (a b : string) :
  PyStr.all_chars (fun x => negb (Ascii.eqb x c)) a = true ->
  PyStr.split c (a +:+ String c b) = a :: PyStr.split c b.
Proof.
  induction a as [|x a IH]; str_simpl; cbn.
  - by rewrite Ascii.eqb_refl.
  - intros [Hx Ha]%andb_true_iff. apply negb_true_iff in Hx as ->.
    by rewrite (IH Ha).
Qed.

(** [sep.join(l).split(sep) == l] for a non-empty [l] without [sep]. *)
Lemma split_join c (l : list string) :
  l <> [] ->
  Forall (fun w => PyStr.all_chars (fun x => negb (Ascii.eqb x c)) w = true) l ->
  PyStr.split c (PyStr.join (String c "") l) = l.
Proof.
  intros Hne Hl. induction Hl as [|w l Hw Hl IH]; [done|].
  destruct l as [|w' l].
  - cbn. by apply split_absent.
  - change (PyStr.join (String c "") (w :: w' :: l))
      with (w +:+ String c "" +:+ PyStr.join (String c "") (w' :: l)).
    str_simpl. rewrite split_app by done. f_equal. by apply IH.
Qed.

(** *** Characters *)

Ltac by_byte :=
  let c := fresh "c" in
  intros c; destruct c as [[] [] [] [] [] [] [] []]; vm_compute;
  first [reflexivity | discriminate | intros; reflexivity | intros; discriminate].

Lemma always_safe_query : forall c, Url.always_safe c = true -> query_char c = true.
Proof. by_byte. Qed.

Lemma always_safe_no c0 :
  PyStr.contains c0 "&=+% " = true ->
  forall c, Url.always_safe c = true -> negb (Ascii.eqb c c0) = true.
Proof.
  intros H0 c Hc. apply negb_true_iff, Ascii.eqb_neq. intros ->.
  revert c0 H0 Hc. by_byte.
Qed.

Lemma query_char_safe : forall c,
  query_char c = true ->
  negb (Url.is_unsafe_url_byte c) && negb (Ascii.eqb c "#") = true.
Proof. by_byte. Qed.

Lemma netloc_char_safe : forall c,
  netloc_char c = true ->
  negb (Url.is_unsafe_url_byte c) && negb (PyStr.contains c "/?#[]") = true.
Proof. by_byte. Qed.

(** *** The query *)

Lemma quote_from_bytes_safe (s : string) :
  PyStr.all_chars Url.always_safe s = true -> Url.quote_from_bytes false s = s.
Proof.
  induction s as [|x s IH]; cbn; [done|].
  intros [-> Hs]%andb_true_iff. cbn. str_simpl. f_equal. auto.
Qed.

Lemma quote_plus_safe (s : string) :
  PyStr.all_chars Url.always_safe s = true -> Url.quote_plus s = s.
Proof.
  intros H. unfold Url.quote_plus. rewrite contains_all_chars.
  - cbn. by apply quote_from_bytes_safe.
  - eapply all_chars_impl; [|exact H]. by apply always_safe_no.
Qed.

Lemma unquote_plus_safe (s : string) :
  PyStr.all_chars Url.always_safe s = true ->
  Url.unquote (PyStr.replace_char "+" " " s) = s.
Proof.
  intros H. rewrite replace_char_absent.
  - unfold Url.unquote. rewrite contains_all_chars; [done|].
    eapply all_chars_impl; [|exact H]. by apply always_safe_no.
  - eapply all_chars_impl; [|exact H]. by apply always_safe_no.
Qed.

Lemma truthy_app (a b : string) :
  PyStr.truthy (a +:+ b) = PyStr.truthy a || PyStr.truthy b.
Proof. destruct a; str_simpl; [done|]. done. Qed.

Lemma render_pair_truthy kv : PyStr.truthy (render_pair kv) = true.
Proof.
  unfold render_pair. rewrite !truthy_app. cbn. apply orb_true_r.
Qed.

Lemma parse_field_pair kv :
  plain_param kv -> Url.parse_field (render_pair kv) = Some kv.
Proof.
  destruct kv as [k v]. intros (Hk & Hv & Hne). cbn in Hk, Hv, Hne.
  unfold Url.parse_field. rewrite render_pair_truthy. cbn [negb].
  unfold render_pair. cbn [fst snd]. str_simpl. rewrite partition_app.
  - destruct v as [|x v]; [done|]. cbn [PyStr.truthy].
    by rewrite !unquote_plus_safe.
  - eapply all_chars_impl; [|exact Hk]. by apply always_safe_no.
Qed.

Lemma render_query_cons kv kv' ps :
  render_query (kv :: kv' :: ps)
  = render_pair kv +:+ "&" +:+ render_query (kv' :: ps).
Proof. done. Qed.

Lemma render_query_truthy ps :
  ps <> [] -> PyStr.truthy (render_query ps) = true.
Proof.
  destruct ps as [|kv [|kv' ps]]; [done| |]; intros _.
  - apply render_pair_truthy.
  - by rewrite render_query_cons, truthy_app, render_pair_truthy.
Qed.

Lemma all_chars_join p sep (l : list string) :
  PyStr.all_chars p sep = true ->
  Forall (fun w => PyStr.all_chars p w = true) l ->
  PyStr.all_chars p (PyStr.join sep l) = true.
Proof.
  intros Hsep Hl. induction Hl as [|w l Hw Hl IH]; [done|].
  destruct l as [|w' l]; [done|].
  change (PyStr.join sep (w :: w' :: l))
    with (w +:+ sep +:+ PyStr.join sep (w' :: l)).
  by rewrite !all_chars_app, Hw, Hsep, IH.
Qed.

Lemma render_pair_chars p kv :
  (forall c, Url.always_safe c = true -> p c = true) -> p "="%char = true ->
  plain_param kv -> PyStr.all_chars p (render_pair kv) = true.
Proof.
  intros Hp He (Hk & Hv & _). unfold render_pair.
  rewrite !all_chars_app, (all_chars_impl _ _ _ Hp Hk),
    (all_chars_impl _ _ _ Hp Hv). cbn. by rewrite He.
Qed.

Lemma render_query_chars p ps :
  (forall c, Url.always_safe c = true -> p c = true) ->
  p "="%char = true -> p "&"%char = true ->
  Forall plain_param ps -> PyStr.all_chars p (render_query ps) = true.
Proof.
  intros Hp He Ha Hps. apply all_chars_join; [cbn; by rewrite Ha|].
  apply Forall_map. eapply Forall_impl; [exact Hps|].
  intros kv Hkv. by apply render_pair_chars.
Qed.

(** [parse_qsl] reads a rendered query back. *)
Lemma parse_qsl_render ps :
  Forall plain_param ps -> Url.parse_qsl (render_query ps) = ps.
Proof.
  intros Hps. unfold Url.parse_qsl.
  destruct (decide (ps = [])) as [->|Hne]; [done|].
  rewrite render_query_truthy by done. unfold render_query.
  rewrite (split_join "&").
  - induction Hps as [|kv ps Hkv Hps IH]; [done|]. cbn.
    rewrite parse_field_pair by done. f_equal.
    destruct ps as [|kv' ps]; [done|]. by apply IH.
  - by destruct ps.
  - apply Forall_map. eapply Forall_impl; [exact Hps|]. intros kv Hkv.
    apply render_pair_chars; [|done|done]. by apply always_safe_no.
Qed.


Lemma qdict_add_fresh k v (d : Url.qdict) :
  k ∉ map fst d -> Url.qdict_add k v d = d ++ [(k, [v])].
Proof.
  induction d as [|[k0 vs] d IH]; cbn; [done|].
  intros Hk. apply not_elem_of_cons in Hk as [Hne Hk].
  destruct (String.eqb_spec k0 k) as [->|_]; [done|]. by rewrite IH.
Qed.

(** With pairwise distinct names every name gets its one value, in the
    order of the query. *)
Lemma parse_qs_distinct (ps : list (string * string)) (d : Url.qdict) :
  NoDup (map fst d ++ map fst ps) ->
  fold_left (fun d nv => Url.qdict_add (fst nv) (snd nv) d) ps d
  = d ++ map (fun kv => (fst kv, [snd kv])) ps.
Proof.
  revert d. induction ps as [|[k v] ps IH]; intros d Hnd; cbn.
  - by rewrite app_nil_r.
  - cbn in Hnd. apply NoDup_app in Hnd as (Hd & Hdis & Hps).
    rewrite qdict_add_fresh.
    + rewrite IH; [by rewrite <-app_assoc|].
      rewrite map_app. cbn. rewrite <-app_assoc. cbn.
      apply NoDup_app. split; [done|]. split; [|done]. exact Hdis.
    + intros Hin. apply (Hdis _ Hin). left.
Qed.

Lemma qdict_pop_single name (ps : list (string * string)) :
  Url.qdict_pop name (map (fun kv => (fst kv, [snd kv])) ps)
  = map (fun kv => (fst kv, [snd kv]))
      (List.filter (fun kv => negb (String.eqb (fst kv) name)) ps).
Proof.
  unfold Url.qdict_pop. induction ps as [|[k v] ps IH]; cbn; [done|].
  destruct (String.eqb k name); cbn; by rewrite IH.
Qed.

Lemma filter_filter {A} (f g : A -> bool) (l : list A) :
  List.filter f (List.filter g l) = List.filter (fun x => g x && f x) l.
Proof.
  induction l as [|x l IH]; cbn; [done|].
  destruct (g x); cbn; [|done]. destruct (f x); by rewrite IH.
Qed.

Lemma urlencode_single ps :
  Forall plain_param ps ->
  Url.urlencode (map (fun kv => (fst kv, [snd kv])) ps) = render_query ps.
Proof.
  intros Hps. unfold Url.urlencode, render_query. f_equal.
  induction Hps as [|[k v] ps (Hk & Hv & _) Hps IH]; cbn; [done|].
  cbn in Hk, Hv. by rewrite IH, !quote_plus_safe.
Qed.

Lemma without_playlist_params_plain ps :
  Forall plain_param ps -> Forall plain_param (without_playlist_params ps).
Proof.
  intros Hps. unfold without_playlist_params.
  apply List.Forall_forall. intros kv [Hin _]%filter_In.
  by eapply List.Forall_forall in Hps.
Qed.

(** What [_strip_playlist_params] does to the query of a plain URL. *)
Lemma strip_query ps :
  Forall plain_param ps -> NoDup (map fst ps) ->
  Url.urlencode
    (Url.qdict_pop "index" (Url.qdict_pop "list" (Url.parse_qs (render_query ps))))
  = render_query (without_playlist_params ps).
Proof.
  intros Hps Hnd. unfold Url.parse_qs.
  rewrite parse_qsl_render, parse_qs_distinct by done.
  cbn [app]. rewrite !qdict_pop_single, filter_filter.
  rewrite (List.filter_ext _ (fun kv => negb (is_playlist_param kv))).
  - apply urlencode_single. by apply without_playlist_params_plain.
  - intros kv. unfold is_playlist_param. by rewrite negb_orb.
Qed.

(** *** The URL *)

Lemma all_chars_with_delim p d (s : string) :
  PyStr.all_chars p d = true -> PyStr.all_chars p s = true ->
  PyStr.all_chars p (with_delim d s) = true.
Proof.
  intros Hd Hs. destruct s as [|x s]; [done|].
  unfold with_delim. by rewrite all_chars_app, Hd, Hs.
Qed.

Lemma append_with_delim (u d s : string) :
  (if PyStr.truthy s then u +:+ d +:+ s else u) = u +:+ with_delim d s.
Proof. destruct s; cbn; [by rewrite append_nil_r|done]. Qed.

Lemma split_scheme_http (s rest : string) :
  s = "http" \/ s = "https" ->
  Url.split_scheme (s +:+ "://" +:+ rest) = (s, "//" +:+ rest).
Proof. by intros [->| ->]. Qed.

Lemma lstrip_http (s rest : string) :
  s = "http" \/ s = "https" ->
  PyStr.lstrip Url.is_c0_control_or_space (s +:+ rest) = s +:+ rest.
Proof. by intros [->| ->]. Qed.

Lemma startswith_app (a b : string) : PyStr.startswith a (a +:+ b) = true.
Proof.
  unfold PyStr.startswith. induction a as [|x a IH]; str_simpl.
  - by destruct b.
  - cbn. by destruct (ascii_dec x x).
Qed.

Lemma startswith_head x (p : string) :
  PyStr.startswith (String x "") p = true -> exists p', p = String x p'.
Proof.
  destruct p as [|y p]; [done|]. cbn.
  destruct (ascii_dec x y) as [->|]; [eauto|done].
Qed.

(** [urlsplit] finds the five parts of a plain URL. *)
Lemma urlsplit_render s n p q f :
  s = "http" \/ s = "https" ->
  PyStr.all_chars netloc_char n = true ->
  p = "" \/ PyStr.startswith "/" p = true ->
  PyStr.all_chars path_char p = true ->
  PyStr.all_chars query_char q = true ->
  PyStr.all_chars fragment_char f = true ->
  Url.urlsplit (s +:+ "://" +:+ n +:+ p +:+ with_delim "?" q +:+ with_delim "#" f)
  = Some (Url.mkSplit s n p q f).
Proof.
  intros Hs Hn Hp0 Hp Hq Hf.
  pose proof (all_chars_impl _ _ _ netloc_char_safe Hn) as Hn'.
  apply all_chars_and in Hn' as [Hnu Hnd].
  pose proof (all_chars_impl _ _ _ query_char_safe Hq) as Hq'.
  apply all_chars_and in Hq' as [Hqu Hqh].
  apply all_chars_and in Hp as [Hpd Hpu].
  set (rest := p +:+ with_delim "?" q +:+ with_delim "#" f).
  assert (Hru : PyStr.all_chars (fun c => negb (Url.is_unsafe_url_byte c))
                  rest = true).
  { unfold rest. rewrite !all_chars_app, Hpu. cbn [andb].
    rewrite !all_chars_with_delim; done. }
  unfold Url.urlsplit.
  rewrite lstrip_http by done.
  rewrite keep_all.
  2:{ rewrite !all_chars_app, Hnu, Hru.
      destruct Hs as [->| ->]; reflexivity. }
  rewrite split_scheme_http by done. cbv beta iota zeta.
  rewrite (startswith_app "//" (n +:+ rest)).
  change (PyStr.drop 2 ("//" +:+ n +:+ rest)) with (n +:+ rest).
  cbv iota. unfold Url._splitnetloc. rewrite break_app.
  2:{ eapply all_chars_impl; [|exact Hnd]. by_byte. }
  2:{ unfold rest. destruct Hp0 as [->|Hp0].
      - str_simpl. destruct q as [|x q]; [|done].
        destruct f as [|y f]; done.
      - apply startswith_head in Hp0 as [p' ->]. by str_simpl. }
  rewrite !contains_all_chars.
  2,3: eapply all_chars_impl; [|exact Hnd]; by_byte.
  cbn [andb orb negb].
  assert (Hpq : PyStr.all_chars (fun x => negb (Ascii.eqb x "#"))
                  (p +:+ with_delim "?" q) = true).
  { rewrite all_chars_app, all_chars_with_delim; [|done|done].
    rewrite andb_true_r. eapply all_chars_impl; [|exact Hpd]. by_byte. }
  assert (Hfr : match PyStr.partition "#" rest with
                | Some (u, fr) => (u, fr)
                | None => (rest, EmptyString)
                end = (p +:+ with_delim "?" q, f)).
  { unfold rest. destruct f as [|y f].
    - cbn [with_delim]. rewrite append_nil_r.
      by rewrite partition_absent.
    - rewrite <-append_assoc. cbn [with_delim]. str_simpl.
      by rewrite partition_app. }
  rewrite Hfr.
  assert (Hqr : match PyStr.partition "?" (p +:+ with_delim "?" q) with
                | Some (u, qr) => (u, qr)
                | None => (p +:+ with_delim "?" q, EmptyString)
                end = (p, q)).
  { assert (Hp' : PyStr.all_chars (fun x => negb (Ascii.eqb x "?")) p = true).
    { eapply all_chars_impl; [|exact Hpd]. by_byte. }
    destruct q as [|y q].
    - cbn [with_delim]. rewrite append_nil_r. by rewrite partition_absent.
    - cbn [with_delim]. str_simpl. by rewrite partition_app. }
  by rewrite Hqr.
Qed.

Lemma urlparse_render s n p q f :
  s = "http" \/ s = "https" ->
  PyStr.all_chars netloc_char n = true ->
  p = "" \/ PyStr.startswith "/" p = true ->
  PyStr.all_chars path_char p = true ->
  PyStr.all_chars query_char q = true ->
  PyStr.all_chars fragment_char f = true ->
  Url.urlparse (s +:+ "://" +:+ n +:+ p +:+ with_delim "?" q +:+ with_delim "#" f)
  = Some (Url.mkParse s n p "" q f).
Proof.
  intros Hs Hn Hp0 Hp Hq Hf. unfold Url.urlparse.
  rewrite urlsplit_render by done. cbn [Url.s_scheme Url.s_netloc Url.s_path
    Url.s_query Url.s_fragment].
  rewrite (contains_all_chars ";" p), andb_false_r; [done|].
  apply all_chars_and in Hp as [Hpd _].
  eapply all_chars_impl; [|exact Hpd]. by_byte.
Qed.

Lemma urlunsplit_render s n p q f :
  s = "http" \/ s = "https" -> n <> "" ->
  p = "" \/ PyStr.startswith "/" p = true ->
  Url.urlunsplit s n p q f
  = s +:+ "://" +:+ n +:+ p +:+ with_delim "?" q +:+ with_delim "#" f.
Proof.
  intros Hs Hn Hp. unfold Url.urlunsplit.
  assert (PyStr.truthy n = true) as -> by (by destruct n).
  assert (PyStr.truthy s = true) as -> by (by destruct Hs as [->| ->]).
  assert ((if PyStr.truthy p && negb (PyStr.startswith "/" p)
           then "/" +:+ p else p) = p) as ->.
  { destruct Hp as [->| ->]; [done|]. by rewrite andb_false_r. }
  cbn [orb]. rewrite !append_with_delim, !append_assoc. by str_simpl.
Qed.

(** A plain URL comes back with the [list] and [index] parameters removed
    and the others as they were. *)
Lemma _strip_playlist_params_plain s n p ps f :
  plain_url s n p ps f ->
  _strip_playlist_params (render_url s n p ps f)
  = Some (render_url s n p (without_playlist_params ps) f).
Proof.
  intros [Hs Hne Hn Hp0 Hp Hf Hps Hnd].
  unfold _strip_playlist_params, render_url.
  rewrite urlparse_render; [|done|done|done|done| |done].
  2:{ apply render_query_chars; [apply always_safe_query|done..]. }
  cbn [Url.scheme Url.netloc Url.path Url.params Url.query Url.fragment].
  rewrite strip_query by done. unfold Url.urlunparse.
  cbn [Url.scheme Url.netloc Url.path Url.params Url.query Url.fragment
       PyStr.truthy].
  by rewrite urlunsplit_render.
Qed.




(* ====================================================================== *)
(** ** Further properties of the manager *)
(* ====================================================================== *)

Lemma burst_state_reachable : reachable library_config burst_state.
Proof. eapply run_reachable; [constructor|apply burst_state_run]. Qed.

Lemma burst_queued_state_reachable :
  reachable library_config burst_queued_state.
Proof. eapply run_reachable; [constructor|apply burst_queued_state_run]. Qed.

Lemma cancel_queued_state_reachable :
  reachable library_config cancel_queued_state.
Proof. eapply run_reachable; [constructor|apply cancel_queued_state_run]. Qed.

Lemma binary_success_state_reachable :
  reachable binary_config binary_success_state.
Proof. eapply run_reachable; [constructor|apply binary_success_state_run]. Qed.

(** *** Workers and permits *)

(** X1.  [process_queue] starts as many workers as the semaphore has
    permits, so the semaphore never makes a worker wait: in every state the
    free permits are the workers that are not inside [_process_task], no
    worker is suspended in [async with self.semaphore], and a worker
    waiting in [queue.get()] finds a free permit. *)
Theorem permits_never_block c m :
  reachable c m ->
  (forall w r, workers m !! w <> Some (InSem r)) /\
  length (running m) + semaphore m = MAX_CONCURRENT /\
  (forall w, workers m !! w = Some InGet -> 0 < semaphore m).
Proof.
  intros Hr. pose proof (reachable_Inv _ _ Hr) as HI.
  split; [intros w r; by eapply never_InSem|].
  split; [apply HI|].
  intros w Hw. destruct (permit_available m w InGet HI Hw eq_refl) as [n ->].
  lia.
Qed.

Lemma permits_never_block_witness :
  reachable library_config burst_state /\
  length (running burst_state) + semaphore burst_state = MAX_CONCURRENT.
Proof.
  split; [exact burst_state_reachable|].
  exact (proj1 (proj2 (permits_never_block library_config burst_state
                         burst_state_reachable))).
Defined.

(** *** The active-task index *)

Lemma held_workers m1 m2 r : workers m1 = workers m2 -> held m1 r -> held m2 r.
Proof. unfold held. by intros ->. Qed.

Lemma held_set_worker_other m w old ws r :
  workers m !! w = Some old -> ~ holds old r -> held m r ->
  held (set_worker w ws m) r.
Proof.
  intros Hw Hold (w' & ws' & Hw' & Hh). exists w', ws'. split; [|done].
  simpl. rewrite list_lookup_insert_ne; [done|]. intros ->.
  rewrite Hw in Hw'. by injection Hw' as ->.
Qed.

Lemma held_set_worker_self m w old r :
  workers m !! w = Some old -> held (set_worker w (InRun r) m) r.
Proof.
  intros Hw. exists w, (InRun r). split; [|by right]. simpl.
  apply list_lookup_insert_eq. by eapply lookup_lt_Some.
Qed.

Lemma status_of_update_ne m r r' f :
  r' <> r -> status_of (update_task r f m) r' = status_of m r'.
Proof.
  intros Hne. unfold status_of, update_task. simpl.
  by rewrite list_lookup_alter_ne.
Qed.

Lemma index_ref_inj m k k' r :
  Inv m -> active_tasks m !! k = Some r -> active_tasks m !! k' = Some r ->
  k = k'.
Proof.
  intros HI Hk Hk'.
  destruct (inv_index_id m HI k r Hk) as (t & Ht & <-).
  destruct (inv_index_id m HI k' r Hk') as (t' & Ht' & <-). congruence.
Qed.

(** What the start of [_process_task] does to an index entry. *)
Lemma _process_task_begin_index_live w r0 m0 m m' old k r :
  Inv m0 -> index_live m0 ->
  workers m !! w = Some old -> ~ (exists r1, r1 <> r0 /\ holds old r1) ->
  workers m = workers m0 -> heap m = heap m0 ->
  active_tasks m = active_tasks m0 ->
  (forall r1, r1 <> r0 -> r1 ∈ queue m0 -> r1 ∈ queue m) ->
  _process_task_begin w r0 m = Some m' ->
  active_tasks m' !! k = Some r ->
  in_flight m' r /\ status_of m' r <> Some Cancelled.
Proof.
  intros HI HJ Hw Hold Hws Hh Ha Hq Hs Hk.
  apply _process_task_begin_effect in Hs as (t & Ht & [[_ ->]|[_ ->]]).
  - simpl in Hk. rewrite Ha in Hk. destruct (HJ k r Hk) as [Hfl Hst].
    destruct (decide (r = r0)) as [->|Hne].
    + split; [right; by eapply held_set_worker_self|].
      unfold status_of. simpl. rewrite list_lookup_alter_eq, Ht. done.
    + split.
      * destruct Hfl as [Hin|Hheld]; [left; simpl; by apply Hq|right].
        eapply held_set_worker_other; [exact Hw| |].
        { intros Hh'. apply Hold. by exists r. }
        eapply held_workers; [|exact Hheld]. done.
      * unfold status_of in *. simpl.
        rewrite list_lookup_alter_ne by done. by rewrite Hh.
  - simpl in Hk. rewrite Ha in Hk.
    apply lookup_delete_Some in Hk as [Hkne Hk].
    destruct (HJ k r Hk) as [Hfl Hst].
    assert (Hne : r <> r0).
    { intros ->. destruct (inv_index_id m0 HI k r0 Hk) as (t' & Ht' & Hid).
      rewrite Hh in Ht. congruence. }
    split.
    + destruct Hfl as [Hin|Hheld]; [left; simpl; by apply Hq|right].
      eapply held_set_worker_other; [exact Hw| |].
      { intros Hh'. apply Hold. by exists r. }
      eapply held_workers; [|exact Hheld]. done.
    + unfold status_of in *. simpl.
      rewrite list_lookup_alter_ne by done. by rewrite Hh.
Qed.

Lemma reachable_index_live c m : reachable c m -> index_live m.
Proof.
  induction 1 as [|m e m' Hr HJ Hs]; [intros k r Hk; by simpl in Hk|].
  pose proof (reachable_Inv _ _ Hr) as HI. unfold index_live in HJ.
  intros k r Hk.
  destruct e as [uuid4 now u dt pl qy fm ti|id| |w|w|w|w|w d|w res];
    simpl in Hs.
  - destruct (add_download _ _ _ _ _ _ _ _ _) as [[id m1]|] eqn:Ha.
    + apply add_download_Return in Ha as (u' & _ & _ & ->).
      injection Hs as <-. simpl in Hk. unfold in_flight, status_of. simpl.
      apply lookup_insert_Some in Hk as [[_ <-]|[_ Hk]].
      * split; [left; apply elem_of_app; right; by apply list_elem_of_singleton|].
        by rewrite list_lookup_middle.
      * destruct (HJ k r Hk) as [Hfl Hst]. split.
        { destruct Hfl as [Hin|Hheld]; [left; apply elem_of_app; by left|].
          by right. }
        destruct (inv_index_id m HI k r Hk) as (t & Ht & _).
        unfold status_of in Hst. rewrite (lookup_app_l_Some _ _ _ _ Ht).
        by rewrite Ht in Hst.
    + injection Hs as <-. by eapply HJ.
  - injection Hs as <-. unfold cancel_task in *.
    destruct (active_tasks m !! id) as [r0|] eqn:Hid; [|by eapply HJ].
    simpl in Hk. apply lookup_delete_Some in Hk as [Hkne Hk].
    destruct (HJ k r Hk) as [Hfl Hst].
    assert (Hne : r <> r0).
    { intros ->. apply Hkne. by eapply index_ref_inj. }
    split; [exact Hfl|]. simpl. unfold status_of in *. simpl.
    by rewrite list_lookup_alter_ne.
  - injection Hs as <-. by eapply HJ.
  - destruct (workers m !! w) as [[| | | |]|] eqn:Hw; try done.
    injection Hs as <-. destruct (HJ k r Hk) as [Hfl Hst].
    split; [|exact Hst]. destruct Hfl as [Hin|Hheld]; [by left|right].
    eapply held_set_worker_other; [exact Hw| |exact Hheld]. by intros [|].
  - destruct (workers m !! w) as [[| | | |]|] eqn:Hw, (queue m) eqn:Hq;
      try done.
    injection Hs as <-. destruct (HJ k r Hk) as [Hfl Hst].
    split; [|exact Hst]. destruct Hfl as [Hin|Hheld].
    + by left.
    + right. eapply held_set_worker_other; [exact Hw| |exact Hheld].
      by intros [|].
  - unfold _worker_get in Hs.
    destruct (workers m !! w) as [[| | | |]|] eqn:Hw; try done.
    destruct (queue m) as [|r0 q] eqn:Hq; [done|]. simpl in Hs.
    destruct (heap m !! r0) as [t0|] eqn:Ht0; [|done].
    destruct (decide (status t0 = Cancelled)) as [Hc|Hc].
    { injection Hs as <-. simpl in Hk. destruct (HJ k r Hk) as [Hfl Hst].
      assert (Hne : r <> r0).
      { intros ->. apply Hst. unfold status_of. by rewrite Ht0, <-Hc. }
      split; [|exact Hst]. destruct Hfl as [Hin|Hheld].
      - left. simpl. rewrite Hq in Hin.
        by apply elem_of_cons in Hin as [?|?].
      - right. eapply held_set_worker_other; [exact Hw| |].
        + by intros [|].
        + eapply held_workers; [|exact Hheld]. done. }
    destruct (permit_available m w InGet HI Hw eq_refl) as [n Hn].
    rewrite Hn in Hs.
    eapply (_process_task_begin_index_live w r0 m
              (set_semaphore n (set_queue q m))); try done.
    + by intros (r1 & _ & [|]).
    + intros r1 Hne Hin. simpl. rewrite Hq in Hin.
      by apply elem_of_cons in Hin as [?|?].
  - destruct (workers m !! w) as [[| |r0| |]|] eqn:Hw; try done.
    by eapply never_InSem in Hw.
  - destruct (workers m !! w) as [[| | |r0|]|] eqn:Hw; try done.
    destruct (yt_dlp _); [|done]. injection Hs as <-. simpl in Hk.
    destruct (HJ k r Hk) as [Hfl Hst]. split; [exact Hfl|].
    destruct (decide (r = r0)) as [->|Hne].
    + unfold status_of in *. simpl. rewrite list_lookup_alter_eq.
      destruct (heap m !! r0) as [t|]; [|done]. simpl in *.
      destruct (_progress_hook_fields d t) as (_ & _ & [[-> _]| ->]); done.
    + by rewrite status_of_update_ne.
  - destruct (workers m !! w) as [[| | |r0|]|] eqn:Hw; try done.
    apply _process_task_end_effect in Hs as (t & t' & o & Ht & _ & ->).
    simpl in Hk. apply lookup_delete_Some in Hk as [Hkne Hk].
    destruct (HJ k r Hk) as [Hfl Hst].
    assert (Hne : r <> r0).
    { intros ->. destruct (inv_index_id m HI k r0 Hk) as (t1 & Ht1 & Hid).
      congruence. }
    split.
    + destruct Hfl as [Hin|Hheld]; [by left|right].
      eapply held_set_worker_other; [exact Hw| |].
      * intros [[=]|[= ->]]. done.
      * eapply held_workers; [|exact Hheld]. done.
    + unfold status_of in *. simpl. by rewrite list_lookup_alter_ne.
Qed.

(** X2.  An id in [active_tasks] always leads to a task that carries this
    id, is not finished (its status is [Queued], [Downloading] or
    [Processing]), is not in [completed_tasks], and still waits in the queue
    or is in the hands of a worker. *)
Theorem index_entries_live c m id r :
  reachable c m -> active_tasks m !! id = Some r ->
  exists t, heap m !! r = Some t /\ task_id t = id /\
    is_terminal (status t) = false /\ (r ∉ completed_tasks m) /\
    in_flight m r.
Proof.
  intros Hr Hid. pose proof (reachable_Inv _ _ Hr) as HI.
  destruct (inv_index_id m HI id r Hid) as (t & Ht & Hk).
  destruct (reachable_index_live c m Hr id r Hid) as [Hfl Hst].
  destruct (not_final_of_index m r t HI) as [Hc Hf]; [by exists id|done|].
  exists t. split; [done|]. split; [done|]. split.
  - unfold status_of in Hst. rewrite Ht in Hst. simpl in Hst.
    destruct (status t); done.
  - split; [|done]. intros Hin. apply (inv_done_index m HI r Hin).
    by exists id.
Qed.

Lemma index_entries_live_witness :
  reachable library_config burst_state /\
  active_tasks burst_state !! "a3f1c2d4" = Some 0 /\
  exists t, heap burst_state !! 0 = Some t /\ task_id t = "a3f1c2d4" /\
    is_terminal (status t) = false /\ (0 ∉ completed_tasks burst_state) /\
    in_flight burst_state 0.
Proof.
  split; [exact burst_state_reachable|]. split; [reflexivity|].
  exact (index_entries_live library_config burst_state "a3f1c2d4" 0
           burst_state_reachable eq_refl).
Defined.

Lemma in_flight_listed c m r :
  reachable c m -> in_flight m r -> r ∈ queue m ++ running m.
Proof.
  intros Hr [Hin|(w & ws & Hw & Hh)]; apply elem_of_app; [by left|right].
  apply running_elem. exists w. destruct Hh as [->| ->]; [|done].
  by eapply never_InSem in Hw.
Qed.

(** X3.  The two numbers of the [/health] answer: [len(active_tasks)] never
    exceeds [queue.qsize()] plus the number of workers inside
    [_process_task], hence never [queue.qsize() + MAX_CONCURRENT]. *)
Theorem health_counts_bounded c m :
  reachable c m ->
  active_downloads (health_check m)
    <= queue_size (health_check m) + length (running m) /\
  active_downloads (health_check m)
    <= queue_size (health_check m) + MAX_CONCURRENT.
Proof.
  intros Hr. pose proof (reachable_Inv _ _ Hr) as HI. simpl.
  assert (Hsz : size (active_tasks m) <= length (queue m) + length (running m)).
  { rewrite <-length_map_to_list, <-length_app.
    rewrite <-(length_fmap snd (map_to_list (active_tasks m))).
    apply submseteq_length, NoDup_submseteq.
    - apply NoDup_fmap_2_strong; [|apply NoDup_map_to_list].
      intros [k r] [k' r'] Hx Hy Heq. simpl in Heq. subst r'.
      apply elem_of_map_to_list in Hx, Hy. f_equal.
      by eapply index_ref_inj.
    - intros r Hin. apply list_elem_of_fmap in Hin as ([k r'] & -> & Hin).
      apply elem_of_map_to_list in Hin. simpl.
      eapply in_flight_listed; [exact Hr|].
      by eapply reachable_index_live. }
  split; [exact Hsz|].
  pose proof (inv_permits m HI). lia.
Qed.

Lemma health_counts_bounded_witness :
  reachable library_config burst_state /\
  active_downloads (health_check burst_state)
    <= queue_size (health_check burst_state) + MAX_CONCURRENT.
Proof.
  split; [exact burst_state_reachable|].
  exact (proj2 (health_counts_bounded library_config burst_state
                  burst_state_reachable)).
Defined.

(** *** Cancelling *)

(** X4.  Cancelling an id that is in [active_tasks] succeeds once: the task
    is marked [Cancelled], every other task is untouched, the task stays in
    the queue (so [queue.qsize()] is unchanged while [len(active_tasks)]
    drops by one), nothing is added to [completed_tasks], and a second
    cancel of the same id reports failure and changes nothing. *)
Theorem cancel_task_twice id r m :
  active_tasks m !! id = Some r ->
  exists m',
    cancel_task id m = (true, m') /\
    cancel_task id m' = (false, m') /\
    (r < length (heap m) -> status_of m' r = Some Cancelled) /\
    (forall r', r' <> r -> heap m' !! r' = heap m !! r') /\
    queue m' = queue m /\ completed_tasks m' = completed_tasks m /\
    queue_size (health_check m') = queue_size (health_check m) /\
    S (active_downloads (health_check m')) = active_downloads (health_check m).
Proof.
  intros Hid. unfold cancel_task at 1. rewrite Hid. eexists. split; [done|].
  split.
  { unfold cancel_task. simpl. by rewrite lookup_delete_eq. }
  split.
  { intros Hlt. unfold status_of. simpl. rewrite list_lookup_alter_eq.
    apply lookup_lt_is_Some in Hlt as [t ->]. done. }
  split.
  { intros r' Hne. simpl. by rewrite list_lookup_alter_ne. }
  do 3 (split; [done|]). simpl.
  rewrite map_size_delete_Some by done.
  assert (size (active_tasks m) <> 0) by (by eapply map_size_ne_0_lookup_2).
  lia.
Qed.

Lemma cancel_task_twice_witness :
  active_tasks burst_state !! "d1a2b3c4" = Some 3 /\
  exists m',
    cancel_task "d1a2b3c4" burst_state = (true, m') /\
    cancel_task "d1a2b3c4" m' = (false, m') /\
    (3 < length (heap burst_state) -> status_of m' 3 = Some Cancelled) /\
    (forall r', r' <> 3 -> heap m' !! r' = heap burst_state !! r') /\
    queue m' = queue burst_state /\
    completed_tasks m' = completed_tasks burst_state /\
    queue_size (health_check m') = queue_size (health_check burst_state) /\
    S (active_downloads (health_check m'))
    = active_downloads (health_check burst_state).
Proof.
  split; [reflexivity|].
  exact (cancel_task_twice "d1a2b3c4" 3 burst_state eq_refl).
Defined.

(** X5.  [DELETE /cancel/{task_id}] never answers 404: for an id that is
    not in [active_tasks] the handler's own [except Exception] turns its
    [HTTPException(404)] into status 500 and the manager is unchanged; for
    an id that is there the answer is the success message and the id is
    gone from [active_tasks]. *)
Theorem cancel_download_answers id m :
  (active_tasks m !! id = None ->
     exists detail,
       handle_cancel_download id m = (CancelException 500 detail, m)) /\
  (forall r, active_tasks m !! id = Some r ->
     exists m',
       handle_cancel_download id m
       = (CancelResponse "success" ("Task " +:+ id +:+ " cancelled"), m') /\
       active_tasks m' !! id = None /\
       (r < length (heap m) -> status_of m' r = Some Cancelled)).
Proof.
  split.
  - intros Hid. unfold handle_cancel_download, cancel_task. rewrite Hid.
    by eexists.
  - intros r Hid. unfold handle_cancel_download, cancel_task. rewrite Hid.
    eexists. split; [done|]. simpl. split; [apply lookup_delete_eq|].
    intros Hlt. unfold status_of. simpl. rewrite list_lookup_alter_eq.
    apply lookup_lt_is_Some in Hlt as [t ->]. done.
Qed.

Lemma cancel_download_answers_witness :
  active_tasks burst_state !! "deadbeef" = None /\
  exists detail,
    handle_cancel_download "deadbeef" burst_state
    = (CancelException 500 detail, burst_state).
Proof.
  split; [reflexivity|].
  exact (proj1 (cancel_download_answers "deadbeef" burst_state) eq_refl).
Defined.

(** *** The [/add-download] handler *)



(** *** Stripping playlist parameters, again *)

Lemma NoDup_map_filter {A B} (g : A -> B) (f : A -> bool) (l : list A) :
  NoDup (map g l) -> NoDup (map g (List.filter f l)).
Proof.
  induction l as [|x l IH]; simpl; [done|].
  intros [Hx Hl]%NoDup_cons. destruct (f x); simpl; [|auto].
  apply NoDup_cons. split; [|auto].
  intros Hin. apply Hx. apply list_elem_of_In, in_map_iff in Hin
    as (y & Hy & Hin). apply filter_In in Hin as [Hin _].
  apply list_elem_of_In, in_map_iff. eauto.
Qed.

Lemma without_playlist_params_idem ps :
  without_playlist_params (without_playlist_params ps)
  = without_playlist_params ps.
Proof.
  unfold without_playlist_params. rewrite filter_filter.
  apply List.filter_ext. intros kv. by destruct (is_playlist_param kv).
Qed.

Lemma without_playlist_params_id ps :
  Forall (fun kv => is_playlist_param kv = false) ps ->
  without_playlist_params ps = ps.
Proof.
  induction 1 as [|kv ps Hkv Hps IH]; [done|].
  unfold without_playlist_params in *. simpl. by rewrite Hkv, IH.
Qed.

(** X7.  On a plain http(s) URL [_strip_playlist_params] is idempotent:
    stripping its result again returns the same text.  A plain URL that has
    no [list] and no [index] parameter comes back unchanged. *)
Theorem strip_playlist_params_idempotent s n p ps f :
  plain_url s n p ps f ->
  exists u',
    _strip_playlist_params (render_url s n p ps f) = Some u' /\
    _strip_playlist_params u' = Some u' /\
    (Forall (fun kv => is_playlist_param kv = false) ps ->
     u' = render_url s n p ps f).
Proof.
  intros Hplain. exists (render_url s n p (without_playlist_params ps) f).
  split; [by apply _strip_playlist_params_plain|]. split.
  - rewrite _strip_playlist_params_plain.
    + by rewrite without_playlist_params_idem.
    + destruct Hplain as [Hs Hne Hn Hp0 Hp Hf Hps Hnd].
      split; try done; [by apply without_playlist_params_plain|].
      by apply NoDup_map_filter.
  - intros Hno. by rewrite without_playlist_params_id.
Qed.

Lemma sample_plain_url :
  plain_url "https" "x.test" "/watch"
    [("v", "abc"); ("list", "PL1"); ("index", "3")] "".
Proof.
  split; try done; [by right|by right| |].
  - repeat constructor; done.
  - cbn. repeat (apply NoDup_cons_2;
      [intros H; repeat (apply elem_of_cons in H as [H|H];
                           [discriminate H|]);
       by apply elem_of_nil in H|]).
    apply NoDup_nil_2.
Qed.

Lemma strip_playlist_params_idempotent_witness :
  plain_url "https" "x.test" "/watch"
    [("v", "abc"); ("list", "PL1"); ("index", "3")] "" /\
  exists u',
    _strip_playlist_params "https://x.test/watch?v=abc&list=PL1&index=3"
    = Some u' /\
    _strip_playlist_params u' = Some u'.
Proof.
  split; [exact sample_plain_url|].
  destruct (strip_playlist_params_idempotent "https" "x.test" "/watch"
              [("v", "abc"); ("list", "PL1"); ("index", "3")] ""
              sample_plain_url) as (u' & H1 & H2 & _).
  exists u'. split; [exact H1|exact H2].
Defined.

(** *** What the two builders ask for *)

Lemma cli_option_here opt v (rest : list string) :
  cli_option opt (opt :: v :: rest) = Some v.
Proof. simpl. by rewrite String.eqb_refl. Qed.

Lemma cli_option_skip opt a b (rest : list string) :
  a <> opt -> cli_option opt (a :: b :: rest) = cli_option opt (b :: rest).
Proof. intros Hne. simpl. by apply String.eqb_neq in Hne as ->. Qed.

Lemma selector_not_option (h rest opt : string) :
  PyStr.startswith "-" opt = true ->
  "bestvideo[height<=" +:+ h +:+ rest <> opt.
Proof. intros Ho <-. discriminate Ho. Qed.

(** X8.  Where the two strategies agree.  For an audio task both are given
    the task's format as the codec and its quality as the audio quality,
    and both add metadata; for a video task of quality [best] both use the
    selector [bestvideo+bestaudio/best]. *)
Theorem builders_agree_on_audio_and_best c task :
  (download_type task = "audio" ->
     (exists rest,
        tail (_build_binary_command c task)
        = ["-x"; "--audio-format"; format_type task;
           "--audio-quality"; quality task; "--add-metadata"] ++ rest) /\
     postprocessors (_build_ydl_options c task)
     = Some [FFmpegExtractAudio (format_type task) (quality task);
             FFmpegMetadata] /\
     opt_format (_build_ydl_options c task) = "bestaudio/best") /\
  (download_type task <> "audio" -> quality task = "best" ->
     cli_option "-f" (tail (_build_binary_command c task))
     = Some (opt_format (_build_ydl_options c task)) /\
     opt_format (_build_ydl_options c task) = "bestvideo+bestaudio/best").
Proof.
  split.
  - intros Ha. unfold _build_binary_command, _build_ydl_options.
    rewrite Ha. simpl. split; [|done].
    destruct (PyStr.truthy_opt _); eexists; reflexivity.
  - intros Ha Hq. unfold _build_binary_command, _build_ydl_options.
    apply String.eqb_neq in Ha as ->. rewrite Hq. simpl.
    by destruct (PyStr.truthy_opt _).
Qed.

Lemma builders_agree_on_audio_and_best_witness :
  download_type sample_audio_task = "audio" /\
  postprocessors (_build_ydl_options binary_config sample_audio_task)
  = Some [FFmpegExtractAudio "mp3" "192"; FFmpegMetadata] /\
  exists rest,
    tail (_build_binary_command binary_config sample_audio_task)
    = ["-x"; "--audio-format"; "mp3"; "--audio-quality"; "192";
       "--add-metadata"] ++ rest.
Proof.
  split; [reflexivity|].
  destruct (proj1 (builders_agree_on_audio_and_best binary_config
                     sample_audio_task) eq_refl) as (Hcmd & Hpp & _).
  split; [exact Hpp|exact Hcmd].
Defined.

(** X9.  The merge directive.  For every video task the library options
    carry [merge_output_format], the task's format.  The command for the
    binary carries [--merge-output-format] with the same value when the
    quality, with every [p] removed, is not [best], and carries no such
    option when it is. *)
Theorem merge_directive c task h :
  download_type task <> "audio" ->
  h = PyStr.keep (fun a => negb (Ascii.eqb a "p")) (quality task) ->
  ffmpeg_location c <> "--merge-output-format" ->
  merge_output_format (_build_ydl_options c task) = Some (format_type task) /\
  cli_option "--merge-output-format" (tail (_build_binary_command c task))
  = if String.eqb h "best" then None else Some (format_type task).
Proof.
  intros Ha -> Hl. split.
  { unfold _build_ydl_options. by apply String.eqb_neq in Ha as ->. }
  unfold _build_binary_command. apply String.eqb_neq in Ha as ->.
  set (h := PyStr.keep _ (quality task)).
  assert (Hsel : forall rest, "bestvideo[height<=" +:+ h +:+ rest
                              <> "--merge-output-format").
  { intros rest. by apply selector_not_option. }
  destruct (String.eqb h "best").
  - destruct (PyStr.truthy_opt _); simpl.
    + apply String.eqb_neq in Hl as ->. done.
    + done.
  - destruct (Url.mem h _), (PyStr.truthy_opt _); simpl tail;
      rewrite cli_option_skip by done;
      rewrite cli_option_skip by apply Hsel;
      apply cli_option_here.
Qed.

Lemma merge_directive_witness :
  merge_output_format (_build_ydl_options binary_config sample_best_task)
  = Some "mkv" /\
  cli_option "--merge-output-format"
    (tail (_build_binary_command binary_config sample_best_task)) = None.
Proof.
  apply (merge_directive binary_config sample_best_task "best").
  - discriminate.
  - reflexivity.
  - discriminate.
Defined.

(** X10.  Both builders pass on the same ffmpeg directory: the value of
    [--ffmpeg-location] in the command is the [ffmpeg_location] entry of
    the options, and neither is present when ffmpeg was not found. *)
Theorem ffmpeg_location_agrees c task :
  format_type task <> "--ffmpeg-location" ->
  quality task <> "--ffmpeg-location" ->
  cli_option "--ffmpeg-location" (tail (_build_binary_command c task))
  = opt_ffmpeg_location (_build_ydl_options c task).
Proof.
  intros Hf Hq.
  assert (Hlib : opt_ffmpeg_location (_build_ydl_options c task)
                 = if PyStr.truthy_opt (_ffmpeg_path c)
                   then Some (ffmpeg_location c) else None).
  { unfold _build_ydl_options.
    by destruct (String.eqb (download_type task) "audio"). }
  rewrite Hlib. unfold _build_binary_command.
  set (h := PyStr.keep _ (quality task)).
  assert (Hsel : forall rest, "bestvideo[height<=" +:+ h +:+ rest
                              <> "--ffmpeg-location").
  { intros rest. by apply selector_not_option. }
  destruct (String.eqb (download_type task) "audio").
  - destruct (PyStr.truthy_opt _); simpl tail;
      rewrite cli_option_skip by done;
      rewrite cli_option_skip by done;
      rewrite cli_option_skip by done;
      rewrite cli_option_skip by done;
      rewrite cli_option_skip by done;
      rewrite cli_option_skip by done.
    + apply cli_option_here.
    + simpl. done.
  - destruct (String.eqb h "best").
    + destruct (PyStr.truthy_opt _); simpl tail;
        rewrite cli_option_skip by done;
        rewrite cli_option_skip by done.
      * apply cli_option_here.
      * done.
    + destruct (Url.mem h _), (PyStr.truthy_opt _); simpl tail;
        rewrite cli_option_skip by done;
        rewrite cli_option_skip by apply Hsel;
        rewrite cli_option_skip by done;
        rewrite cli_option_skip by done;
        try (rewrite cli_option_skip by done);
        first [apply cli_option_here | done].
Qed.

Lemma ffmpeg_location_agrees_witness :
  cli_option "--ffmpeg-location"
    (tail (_build_binary_command binary_config sample_video_task))
  = opt_ffmpeg_location (_build_ydl_options binary_config sample_video_task).
Proof.
  apply (ffmpeg_location_agrees binary_config sample_video_task);
    discriminate.
Defined.

(* ====================================================================== *)
(** ** What one event does to a task object *)
(* ====================================================================== *)

Lemma _process_task_begin_task_change w r0 m0 m m' r t' :
  heap m = heap m0 ->
  _process_task_begin w r0 m = Some m' -> heap m' !! r = Some t' ->
  task_change m0 r t'.
Proof.
  intros Hh Hs Ht'.
  apply _process_task_begin_effect in Hs as (t & Ht & [[_ ->]|[_ ->]]);
    simpl in Ht'; apply lookup_alter_inv in Ht' as (x & Hx & Hcase);
    rewrite Hh in *;
    (destruct Hcase as [[<- ->]|[_ ->]]; [|by apply tc_same]);
    first [by eapply tc_start | eapply tc_nocap; [exact Ht|reflexivity]].
Qed.

Lemma step_task_change e m m' r t' :
  step e m = Some m' -> heap m' !! r = Some t' -> task_change m r t'.
Proof.
  intros Hs Ht'.
  destruct e as [uuid4 now u dt pl qy fm ti|id| |w|w|w|w|w d|w res];
    simpl in Hs.
  - destruct (add_download _ _ _ _ _ _ _ _ _) as [[id m1]|] eqn:Ha.
    + apply add_download_Return in Ha as (u' & _ & _ & ->).
      injection Hs as <-. simpl in Ht'.
      apply lookup_app_Some in Ht' as [Ht'|[Hge Ht']]; [by apply tc_same|].
      apply list_lookup_singleton_Some in Ht' as [Hz <-].
      apply tc_new; [|lia|done]. apply lookup_ge_None. lia.
    + injection Hs as <-. by apply tc_same.
  - injection Hs as <-. unfold cancel_task in Ht'.
    destruct (active_tasks m !! id) as [r0|] eqn:Hid; [|by apply tc_same].
    simpl in Ht'. apply lookup_alter_inv in Ht' as (x & Hx & Hcase).
    destruct Hcase as [[<- ->]|[_ ->]]; [|by apply tc_same].
    eapply tc_cancel; [done| |done]. by exists id.
  - injection Hs as <-. by apply tc_same.
  - destruct (workers m !! w) as [[| | | |]|]; try done.
    injection Hs as <-. by apply tc_same.
  - destruct (workers m !! w) as [[| | | |]|], (queue m); try done.
    injection Hs as <-. by apply tc_same.
  - unfold _worker_get in Hs.
    destruct (workers m !! w) as [[| | | |]|] eqn:Hw; try done.
    destruct (queue m) as [|r0 q] eqn:Hq; [done|]. simpl in Hs.
    destruct (heap m !! r0) as [t0|] eqn:Ht0; [|done].
    destruct (decide (status t0 = Cancelled));
      [injection Hs as <-; by apply tc_same|].
    destruct (semaphore m); [injection Hs as <-; by apply tc_same|].
    eapply (_process_task_begin_task_change w r0 m); [|exact Hs|exact Ht'].
    done.
  - destruct (workers m !! w) as [[| |r0| |]|] eqn:Hw; try done.
    destruct (semaphore m); [done|].
    eapply (_process_task_begin_task_change w r0 m); [|exact Hs|exact Ht'].
    done.
  - destruct (workers m !! w) as [[| | |r0|]|] eqn:Hw; try done.
    destruct (yt_dlp _); [|done]. injection Hs as <-. simpl in Ht'.
    apply lookup_alter_inv in Ht' as (x & Hx & Hcase).
    destruct Hcase as [[<- ->]|[_ ->]]; [by eapply tc_hook|by apply tc_same].
  - destruct (workers m !! w) as [[| | |r0|]|] eqn:Hw; try done.
    apply _process_task_end_effect in Hs as (t & t1 & o & Ht & Hend & ->).
    simpl in Ht'. apply lookup_alter_inv in Ht' as (x & Hx & Hcase).
    destruct Hcase as [[<- ->]|[_ ->]]; [|by apply tc_same].
    eapply tc_end; [exact Ht|exact Hw|exact Hend|reflexivity].
Qed.

Lemma step_task_stays e m m' r t :
  step e m = Some m' -> heap m !! r = Some t -> is_Some (heap m' !! r).
Proof.
  intros Hs Ht. apply lookup_lt_is_Some.
  apply lookup_lt_Some in Ht. pose proof (step_heap_length e m m' Hs). lia.
Qed.

(** *** The request fields *)

Lemma same_request_refl t : same_request t t.
Proof. by repeat split. Qed.

Lemma same_request_trans t1 t2 t3 :
  same_request t1 t2 -> same_request t2 t3 -> same_request t1 t3.
Proof.
  unfold same_request. intros (?&?&?&?&?&?&?&?) (?&?&?&?&?&?&?&?).
  repeat split; congruence.
Qed.

Lemma _progress_hook_same_request d t : same_request t (_progress_hook d t).
Proof.
  unfold _progress_hook.
  destruct (String.eqb _ "downloading").
  - destruct (downloaded_bytes d), (total_bytes d);
      try destruct (negb _); destruct (_percent_str d) as [[?|]|];
      by repeat split.
  - destruct (String.eqb _ "finished"); by repeat split.
Qed.

Lemma _process_task_outcome_same_request c res t t1 o :
  _download_end c res t = Some (t1, o) ->
  same_request t (_process_task_outcome o t1).
Proof.
  unfold _download_end. intros H.
  destruct (yt_dlp c), res; try done;
    try (injection H as <- <-; by repeat split).
  destruct (_ =? _)%Z; injection H as <- <-; by repeat split.
Qed.

Lemma task_change_same_request m r t t' :
  heap m !! r = Some t -> task_change m r t' -> same_request t t'.
Proof.
  intros Ht [H|H|t0 H _ ->|t0 H ->|t0 H ->|t0 w d H _ ->|t0 w res t1 o H _ He ->];
    rewrite Ht in H; try done; injection H as <-.
  - apply same_request_refl.
  - by repeat split.
  - by repeat split.
  - by repeat split.
  - apply _progress_hook_same_request.
  - by eapply _process_task_outcome_same_request.
Qed.

(** X11.  A task object is never removed and the fields that came with the
    request never change: whatever events follow, the task created by a
    request keeps its id, URL, title, type, quality, format, playlist flag
    and creation time. *)
Theorem task_request_fields_constant es m m' r t :
  run es m = Some m' -> heap m !! r = Some t ->
  exists t', heap m' !! r = Some t' /\ same_request t t'.
Proof.
  revert m t. induction es as [|e es IH]; intros m t Hrun Ht; simpl in Hrun.
  - injection Hrun as <-. exists t. split; [done|apply same_request_refl].
  - destruct (step e m) as [m1|] eqn:Hs; [|done].
    destruct (step_task_stays e m m1 r t Hs Ht) as [t1 Ht1].
    pose proof (step_task_change e m m1 r t1 Hs Ht1) as Hch.
    destruct (IH m1 t1 Hrun Ht1) as (t' & Ht' & Hsame).
    exists t'. split; [done|].
    eapply same_request_trans; [|exact Hsame].
    by eapply task_change_same_request.
Qed.

Lemma task_request_fields_constant_witness :
  run (drop 5 burst_events) burst_queued_state = Some burst_state /\
  exists t t',
    heap burst_queued_state !! 0 = Some t /\
    heap burst_state !! 0 = Some t' /\ same_request t t'.
Proof.
  assert (Hrun : run (drop 5 burst_events) burst_queued_state
                 = Some burst_state) by (vm_compute; reflexivity).
  split; [exact Hrun|].
  destruct (task_request_fields_constant (drop 5 burst_events)
              burst_queued_state burst_state 0 _ Hrun eq_refl)
    as (t' & Ht' & Hsame).
  eexists _, t'. split; [reflexivity|]. split; [exact Ht'|exact Hsame].
Defined.

(** *** The completed list *)

Lemma _process_task_begin_completed_prefix w r m m' :
  _process_task_begin w r m = Some m' ->
  completed_tasks m `prefix_of` completed_tasks m'.
Proof.
  intros Hs.
  apply _process_task_begin_effect in Hs as (t & _ & [[_ ->]|[_ ->]]); simpl.
  - done.
  - by apply prefix_app_r.
Qed.

Lemma step_completed_prefix e m m' :
  step e m = Some m' -> completed_tasks m `prefix_of` completed_tasks m'.
Proof.
  intros Hs.
  destruct e as [uuid4 now u dt pl qy fm ti|id| |w|w|w|w|w d|w res];
    simpl in Hs.
  - destruct (add_download _ _ _ _ _ _ _ _ _) as [[id m1]|] eqn:Ha.
    + apply add_download_Return in Ha as (u' & _ & _ & ->).
      by injection Hs as <-.
    + by injection Hs as <-.
  - injection Hs as <-. unfold cancel_task.
    by destruct (active_tasks m !! id).
  - by injection Hs as <-.
  - destruct (workers m !! w) as [[| | | |]|]; try done.
    by injection Hs as <-.
  - destruct (workers m !! w) as [[| | | |]|], (queue m); try done.
    by injection Hs as <-.
  - unfold _worker_get in Hs.
    destruct (workers m !! w) as [[| | | |]|] eqn:Hw; try done.
    destruct (queue m) as [|r0 q] eqn:Hq; [done|]. simpl in Hs.
    destruct (heap m !! r0) as [t0|] eqn:Ht0; [|done].
    destruct (decide (status t0 = Cancelled)); [by injection Hs as <-|].
    destruct (semaphore m); [by injection Hs as <-|].
    by apply _process_task_begin_completed_prefix in Hs.
  - destruct (workers m !! w) as [[| |r0| |]|] eqn:Hw; try done.
    destruct (semaphore m); [done|].
    by apply _process_task_begin_completed_prefix in Hs.
  - destruct (workers m !! w) as [[| | |r0|]|] eqn:Hw; try done.
    destruct (yt_dlp _); [|done]. by injection Hs as <-.
  - destruct (workers m !! w) as [[| | |r0|]|] eqn:Hw; try done.
    apply _process_task_end_effect in Hs as (t & t1 & o & _ & _ & ->).
    simpl. by apply prefix_app_r.
Qed.

(** X12.  [completed_tasks] only grows at its end: whatever events follow,
    the list of a state is a prefix of the list of every later state, so no
    finished task is ever dropped or moved; and the number of task objects
    never goes down. *)
Theorem completed_tasks_append_only es m m' :
  run es m = Some m' ->
  completed_tasks m `prefix_of` completed_tasks m' /\
  length (heap m) <= length (heap m').
Proof.
  revert m. induction es as [|e es IH]; intros m Hrun; simpl in Hrun.
  - by injection Hrun as <-.
  - destruct (step e m) as [m1|] eqn:Hs; [|done].
    destruct (IH m1 Hrun) as [Hp Hl]. split.
    + etrans; [by eapply step_completed_prefix|done].
    + pose proof (step_heap_length e m m1 Hs). lia.
Qed.

Lemma completed_tasks_append_only_witness :
  run binary_success_events (init binary_config) = Some binary_success_state /\
  completed_tasks (init binary_config)
    `prefix_of` completed_tasks binary_success_state /\
  length (heap (init binary_config)) <= length (heap binary_success_state).
Proof.
  split; [exact binary_success_state_run|].
  exact (completed_tasks_append_only binary_success_events
           (init binary_config) binary_success_state
           binary_success_state_run).
Defined.

(** *** Shutdown *)










(** *** Finished tasks *)

Lemma reachable_completed_progress c m :
  reachable c m ->
  forall r t, heap m !! r = Some t -> status t = Completed ->
              progress t = 100%Q.
Proof.
  induction 1 as [|m e m' Hr IH Hs]; intros r t' Ht' Hc; [done|].
  pose proof (reachable_Inv _ _ Hr) as HI.
  destruct (step_task_change e m m' r t' Hs Ht')
    as [H|H _ Hq|t H _ ->|t H ->|t H ->|t w d H Hw ->|t w res t1 o H Hw He ->].
  - by eapply IH.
  - congruence.
  - done.
  - done.
  - done.
  - destruct (_progress_hook_fields d t) as (_ & _ & [[Hst _]|Hst]);
      [|congruence].
    rewrite Hst in Hc. exfalso.
    apply (inv_done_held m HI r).
    + eapply (inv_final m HI); [exact H|by left].
    + exists w, (InRun r). split; [done|by right].
  - destruct o; done.
Qed.

(** X14.  A task whose status is [Completed] shows a progress of exactly
    100, has no error text, is in [completed_tasks] and is neither in
    [active_tasks] nor in the hands of a worker. *)
Theorem completed_means_full c m r t :
  reachable c m -> heap m !! r = Some t -> status t = Completed ->
  progress t = 100%Q /\ error t = None /\
  r ∈ completed_tasks m /\ ~ in_index m r /\ ~ held m r.
Proof.
  intros Hr Ht Hc. pose proof (reachable_Inv _ _ Hr) as HI.
  assert (Hin : r ∈ completed_tasks m)
    by (eapply (inv_final m HI); [exact Ht|by left]).
  split; [by eapply reachable_completed_progress|].
  split; [eapply error_None_iff; [exact HI|exact Ht|congruence]|].
  split; [done|]. split.
  - by apply (inv_done_index m HI).
  - by apply (inv_done_held m HI).
Qed.

Lemma completed_means_full_witness :
  reachable binary_config binary_success_state /\
  exists t, heap binary_success_state !! 0 = Some t /\
    status t = Completed /\ progress t = 100%Q /\ error t = None /\
    0 ∈ completed_tasks binary_success_state.
Proof.
  split; [exact binary_success_state_reachable|].
  eexists. split; [reflexivity|]. split; [reflexivity|].
  destruct (completed_means_full binary_config binary_success_state 0 _
              binary_success_state_reachable eq_refl eq_refl)
    as (Hp & He & Hin & _).
  split; [exact Hp|]. split; [exact He|exact Hin].
Defined.

(** *** Enqueue, then cancel *)

(** X15.  Cancelling a task right after it was enqueued under a fresh id
    restores [active_tasks] as it was before the request, but does not take
    the task out of the queue: it waits there, marked [Cancelled], until a
    worker meets it, and it is not added to [completed_tasks]. *)
Theorem add_then_cancel uuid4 now u dt pl qy fm ti m id m1 :
  add_download uuid4 now u dt pl qy fm ti m = Return (id, m1) ->
  active_tasks m !! id = None ->
  exists m2,
    cancel_task id m1 = (true, m2) /\
    active_tasks m2 = active_tasks m /\
    queue m2 = queue m ++ [length (heap m)] /\
    status_of m2 (length (heap m)) = Some Cancelled /\
    completed_tasks m2 = completed_tasks m /\
    (forall r, r < length (heap m) -> heap m2 !! r = heap m !! r).
Proof.
  intros Ha Hid. apply add_download_Return in Ha as (u' & _ & _ & ->).
  unfold cancel_task. simpl. rewrite lookup_insert_eq. eexists.
  split; [done|]. simpl. split; [by rewrite delete_insert_eq, delete_id|].
  split; [done|]. split.
  { unfold status_of. simpl. rewrite list_lookup_alter_eq.
    by rewrite list_lookup_middle. }
  split; [done|]. intros r Hlt.
  rewrite list_lookup_alter_ne by lia. by apply lookup_app_l.
Qed.

Lemma add_then_cancel_witness :
  add_download uuid_a 0 "https://x.test/watch?a=1&b=2&a=3&list=PL1"
    "video" false "best" "mp4" "clip" (init library_config)
  = Return ("a3f1c2d4", repeated_state) /\
  exists m2,
    cancel_task "a3f1c2d4" repeated_state = (true, m2) /\
    active_tasks m2 = active_tasks (init library_config) /\
    queue m2 = [0] /\ status_of m2 0 = Some Cancelled.
Proof.
  assert (Ha : add_download uuid_a 0
                 "https://x.test/watch?a=1&b=2&a=3&list=PL1"
                 "video" false "best" "mp4" "clip" (init library_config)
               = Return ("a3f1c2d4", repeated_state))
    by (vm_compute; reflexivity).
  split; [exact Ha|].
  destruct (add_then_cancel _ _ _ _ _ _ _ _ _ _ _ Ha eq_refl)
    as (m2 & Hc & Hi & Hq & Hst & _).
  exists m2. split; [exact Hc|]. split; [exact Hi|].
  split; [exact Hq|exact Hst].
Defined.

(** X16.  Two tasks under one id.  The id is the first eight characters of
    a UUID; when a request gets an id that is still in [active_tasks], the
    entry is overwritten: the older task is unchanged and still in the
    queue or with a worker, but it is no longer a value of [active_tasks],
    and a cancel of the id reaches the new task, not the older one. *)
Theorem id_collision_shadows c m uuid4 now u dt pl qy fm ti id m1 r0 :
  reachable c m ->
  add_download uuid4 now u dt pl qy fm ti m = Return (id, m1) ->
  active_tasks m !! id = Some r0 ->
  active_tasks m1 !! id = Some (length (heap m)) /\
  r0 < length (heap m) /\
  ~ in_index m1 r0 /\
  heap m1 !! r0 = heap m !! r0 /\
  in_flight m1 r0 /\
  fst (cancel_task id m1) = true /\
  status_of (snd (cancel_task id m1)) r0 = status_of m r0 /\
  status_of (snd (cancel_task id m1)) (length (heap m)) = Some Cancelled.
Proof.
  intros Hr Ha Hid. pose proof (reachable_Inv _ _ Hr) as HI.
  destruct (inv_index_id m HI id r0 Hid) as (t0 & Ht0 & Htid).
  pose proof (lookup_lt_Some _ _ _ Ht0) as Hlt.
  destruct (reachable_index_live c m Hr id r0 Hid) as [Hfl _].
  apply add_download_Return in Ha as (u' & _ & _ & ->). simpl.
  split; [apply lookup_insert_eq|]. split; [done|]. split.
  { intros [k Hk]. simpl in Hk.
    apply lookup_insert_Some in Hk as [[_ Hk]|[Hne Hk]]; [lia|].
    apply Hne. symmetry. by eapply index_ref_inj. }
  split; [by apply lookup_app_l|]. split.
  { destruct Hfl as [Hin|Hheld]; [left|by right].
    simpl. apply elem_of_app. by left. }
  unfold cancel_task. simpl. rewrite lookup_insert_eq. simpl.
  split; [done|]. unfold status_of. simpl. split.
  - rewrite list_lookup_alter_ne by lia. by rewrite lookup_app_l.
  - rewrite list_lookup_alter_eq. by rewrite list_lookup_middle.
Qed.

Lemma id_collision_shadows_witness :
  reachable library_config burst_state /\
  add_download uuid_a 0 "https://x.test/watch?v=xyz" "video" false
    "best" "mp4" "other" burst_state
  = Return ("a3f1c2d4", collision_state) /\
  active_tasks burst_state !! "a3f1c2d4" = Some 0 /\
  active_tasks collision_state !! "a3f1c2d4" = Some 5 /\
  ~ in_index collision_state 0 /\
  status_of (snd (cancel_task "a3f1c2d4" collision_state)) 0
  = status_of burst_state 0.
Proof.
  assert (Ha : add_download uuid_a 0 "https://x.test/watch?v=xyz" "video"
                 false "best" "mp4" "other" burst_state
               = Return ("a3f1c2d4", collision_state))
    by (vm_compute; reflexivity).
  split; [exact burst_state_reachable|]. split; [exact Ha|].
  split; [reflexivity|].
  destruct (id_collision_shadows library_config burst_state _ _ _ _ _ _ _ _
              _ _ 0 burst_state_reachable Ha eq_refl)
    as (Hi & _ & Hn & _ & _ & _ & Hst & _).
  split; [exact Hi|]. split; [exact Hn|exact Hst].
Defined.

(** *** The queue *)

Lemma _process_task_begin_queue w r m m' :
  _process_task_begin w r m = Some m' -> queue m' = queue m.
Proof.
  intros Hs.
  by apply _process_task_begin_effect in Hs as (t & _ & [[_ ->]|[_ ->]]).
Qed.

(** Only [add_download] puts a task into the queue, and only the task it
    has just created. *)
Lemma step_queue e m m' r :
  step e m = Some m' -> r ∈ queue m' ->
  r ∈ queue m \/ r = length (heap m).
Proof.
  intros Hs Hin.
  destruct e as [uuid4 now u dt pl qy fm ti|id| |w|w|w|w|w d|w res];
    simpl in Hs.
  - destruct (add_download _ _ _ _ _ _ _ _ _) as [[id m1]|] eqn:Ha.
    + apply add_download_Return in Ha as (u' & _ & _ & ->).
      injection Hs as <-. simpl in Hin.
      apply elem_of_app in Hin as [Hin|Hin]; [by left|right].
      by apply list_elem_of_singleton in Hin.
    + injection Hs as <-. by left.
  - injection Hs as <-. left. unfold cancel_task in Hin.
    by destruct (active_tasks m !! id).
  - injection Hs as <-. by left.
  - destruct (workers m !! w) as [[| | | |]|]; try done.
    injection Hs as <-. by left.
  - destruct (workers m !! w) as [[| | | |]|], (queue m) eqn:Hq; try done.
    injection Hs as <-. simpl in Hin. rewrite Hq in Hin. by left.
  - unfold _worker_get in Hs.
    destruct (workers m !! w) as [[| | | |]|] eqn:Hw; try done.
    destruct (queue m) as [|r0 q] eqn:Hq; [done|]. simpl in Hs.
    destruct (heap m !! r0) as [t0|] eqn:Ht0; [|done]. left.
    destruct (decide (status t0 = Cancelled)).
    { injection Hs as <-. simpl in Hin. apply elem_of_cons. by right. }
    destruct (semaphore m).
    { injection Hs as <-. simpl in Hin. apply elem_of_cons. by right. }
    apply _process_task_begin_queue in Hs. rewrite Hs in Hin. simpl in Hin.
    apply elem_of_cons. by right.
  - destruct (workers m !! w) as [[| |r0| |]|] eqn:Hw; try done.
    destruct (semaphore m); [done|].
    apply _process_task_begin_queue in Hs. rewrite Hs in Hin. by left.
  - destruct (workers m !! w) as [[| | |r0|]|] eqn:Hw; try done.
    destruct (yt_dlp _); [|done]. injection Hs as <-. by left.
  - destruct (workers m !! w) as [[| | |r0|]|] eqn:Hw; try done.
    apply _process_task_end_effect in Hs as (t & t1 & o & _ & _ & ->).
    by left.
Qed.

Lemma run_not_requeued es m m' r :
  run es m = Some m' -> r < length (heap m) -> r ∉ queue m -> r ∉ queue m'.
Proof.
  revert m. induction es as [|e es IH]; intros m Hrun Hlt Hq; simpl in Hrun.
  - by injection Hrun as <-.
  - destruct (step e m) as [m1|] eqn:Hs; [|done].
    apply (IH m1 Hrun).
    + pose proof (step_heap_length e m m1 Hs). lia.
    + intros Hin. apply (step_queue e m m1 r Hs) in Hin as [Hin| ->];
        [done|lia].
Qed.

(** X17.  No task is served twice.  A task that has left the queue never
    comes back into it, and from then on no event sets its status to
    [Downloading] again: there is no retry, whatever the outcome was. *)
Theorem no_task_is_served_twice c m es m' r :
  reachable c m -> run es m = Some m' ->
  r < length (heap m) -> r ∉ queue m ->
  (r ∉ queue m') /\
  (forall e m'', step e m' = Some m'' ->
     status_of m' r <> Some Downloading ->
     status_of m'' r <> Some Downloading).
Proof.
  intros Hr Hrun Hlt Hq.
  assert (Hq' : r ∉ queue m') by (by eapply run_not_requeued).
  split; [exact Hq'|]. intros e m'' Hs Hst Hst'.
  assert (Hr' : reachable c m') by (by eapply run_reachable).
  destruct (step_starts c e m' m'' r Hr' Hs Hst Hst')
    as (w & q & _ & _ & Hqueue & _).
  apply Hq'. rewrite Hqueue. by left.
Qed.

Lemma no_task_is_served_twice_witness :
  reachable library_config burst_state /\
  run [EvDone 0 (Raised "HTTP Error 403")] burst_state
  = Some (default burst_state
            (run [EvDone 0 (Raised "HTTP Error 403")] burst_state)) /\
  (0 ∉ queue burst_state) /\
  (0 ∉ queue (default burst_state
                (run [EvDone 0 (Raised "HTTP Error 403")] burst_state))).
Proof.
  assert (Hrun : run [EvDone 0 (Raised "HTTP Error 403")] burst_state
    = Some (default burst_state
              (run [EvDone 0 (Raised "HTTP Error 403")] burst_state)))
    by (vm_compute; reflexivity).
  assert (Hq : 0 ∉ queue burst_state).
  { intros H. repeat (apply elem_of_cons in H as [H|H]; [discriminate H|]).
    by apply elem_of_nil in H. }
  split; [exact burst_state_reachable|]. split; [exact Hrun|].
  split; [exact Hq|].
  refine (proj1 (no_task_is_served_twice library_config burst_state _ _ 0
                   burst_state_reachable Hrun _ Hq)).
  vm_compute. lia.
Defined.

(** *** Progress and failure reports *)





